(** * napajs zone core: registry, construction, dispatch and value transport

    A shallow embedding of [src/zone/napa-zone.cpp] (zone registry,
    constructor bootstrap barrier, [Broadcast], [Execute]) and of the
    transport [Deserializer::ReadValue], with the properties the
    specification states about them. *)

From stdpp Require Import gmap strings list.

Local Open Scope Z_scope.

(** ** Machine integers *)

(** [uint32_t] values are integers in [[0, 2^32)]; arithmetic wraps. *)
Definition UINT32_MODULUS : Z := 2 ^ 32.

(** Pre-decrement [--x] of a [uint32_t] (also of [std::atomic<uint32_t>],
    whose decrements are totally ordered): the new value. *)
Definition uint32_dec (x : Z) : Z := (x - 1) mod UINT32_MODULUS.

(** Post-increment [x++] of a [uint32_t]: the new value. *)
Definition uint32_inc (x : Z) : Z := (x + 1) mod UINT32_MODULUS.

(** [WorkerId] is a [uint32_t]. *)
Abbreviation WorkerId := Z (only parsing).

(** ** Settings, results and function specs *)

Module settings.
(** [settings::ZoneSettings]: the two fields the zone code reads. *)
Record ZoneSettings : Type := {
  id : string;
  workers : Z  (* uint32_t *)
}.
End settings.

(** Modelled from the spec: the [ResultCode] enumeration is declared outside
    src/; section 3 lists success, timeout, execution error,
    module-not-found, function-not-found, broadcast-script-error,
    zone-not-found and a generic internal-error. *)
Inductive ResultCode : Type :=
  | NAPA_RESULT_SUCCESS
  | NAPA_RESULT_TIMEOUT
  | NAPA_RESULT_EXECUTION_ERROR
  | NAPA_RESULT_MODULE_NOT_FOUND
  | NAPA_RESULT_FUNCTION_NOT_FOUND
  | NAPA_RESULT_BROADCAST_SCRIPT_ERROR
  | NAPA_RESULT_ZONE_NOT_FOUND
  | NAPA_RESULT_INTERNAL_ERROR.

#[global] Instance ResultCode_eq_dec : EqDecision ResultCode.
Proof. solve_decision. Defined.

(** Modelled from the spec: [Result] is declared outside src/; section 3
    gives it a code and an opaque payload (bytes or error text). *)
Record Result : Type := {
  code : ResultCode;
  payload : string
}.

(** [spec.options]: only [timeout] (a [uint32_t], milliseconds) is read by
    the zone. *)
Record CallOptions : Type := {
  timeout : Z
}.

(** [FunctionSpec]: module and function names, marshalled arguments and the
    call options. *)
Record FunctionSpec : Type := {
  module : string;
  function : string;
  arguments : list string;
  options : CallOptions
}.

(** ** Callbacks, call contexts and tasks *)

(** A user-supplied [std::function<void(Result)>], identified by a handle;
    its invocations are recorded in the store. *)
Abbreviation CallbackHandle := nat (only parsing).

(** Address of a heap cell ([std::make_shared]). *)
Abbreviation loc := nat (only parsing).

(** The closures handed to [CallContext], defunctionalised:
    - [UserCallback cb] is the callback moved in by [Execute];
    - [BroadcastCallOnce counter callback] is the lambda [callOnce] of
      [Broadcast], capturing the shared counter cell and the user
      callback. *)
Inductive Callback : Type :=
  | UserCallback (callback : CallbackHandle)
  | BroadcastCallOnce (counter : loc) (callback : CallbackHandle).

(** The closure handed to the bootstrap [EvalTask]: the lambda [callOnce]
    of the constructor, capturing the constructor's [promise] and
    [counter]. *)
Inductive EvalCallback : Type :=
  | BootstrapCallOnce.

(** [CallContext(spec, callback)]. *)
Record CallContext : Type := {
  ctx_spec : FunctionSpec;
  ctx_callback : Callback
}.

(** The task variants the zone builds.  [TimeoutTaskDecorator<CallTask>]
    is constructed from the timeout and the arguments of the inner
    [CallTask]; [CallTask] holds a [std::shared_ptr<CallContext>]. *)
Inductive Task : Type :=
  | EvalTask (source origin : string) (callback : EvalCallback)
  | CallTask (context : loc)
  | TimeoutTaskDecorator (timeout_ms : Z) (inner : Task).

(** ** Scheduler *)

(** The three entry points of the scheduler the zone calls. *)
Inductive SchedulerCall : Type :=
  | Schedule (task : Task)
  | ScheduleOnWorker (id : WorkerId) (task : Task)
  | ScheduleOnAllWorkers (task : Task).

(** Modelled from the spec: the [Scheduler] class is declared outside src/.
    Section 4.3 makes every [Schedule*] entry point a non-blocking enqueue;
    the model keeps the settings it was constructed with and the calls it
    received, in order. *)
Record Scheduler : Type := {
  sched_settings : settings.ZoneSettings;
  sched_calls : list SchedulerCall
}.

Definition Scheduler_new (s : settings.ZoneSettings) : Scheduler :=
  {| sched_settings := s; sched_calls := [] |}.

Definition Scheduler_call (c : SchedulerCall) (s : Scheduler) : Scheduler :=
  {| sched_settings := sched_settings s;
     sched_calls := sched_calls s ++ [c] |}.

(** ** The zone object *)

Record NapaZone : Type := {
  _settings : settings.ZoneSettings;
  _scheduler : Scheduler
}.

Definition GetId (this : NapaZone) : string := settings.id (_settings this).
Definition GetSettings (this : NapaZone) : settings.ZoneSettings := _settings this.
Definition GetScheduler (this : NapaZone) : Scheduler := _scheduler this.

(** ** Outcomes of code that may not return *)

(** A call either returns a value, terminates the process, or waits
    forever. *)
Inductive outcome (A : Type) : Type :=
  | Returns (a : A)
  | Aborts
  | Blocks.
Arguments Returns {A} a.
Arguments Aborts {A}.
Arguments Blocks {A}.

(** Modelled from the spec: the [NAPA_ASSERT] macro is declared outside
    src/; sections 4.4 and 7 make a failed assertion fatal (the process
    aborts). *)
Definition NAPA_ASSERT {A : Type} (condition : bool) (continue : outcome A) : outcome A :=
  if condition then continue else Aborts.

(** ** Constructor: the bootstrap barrier *)

(** The constructor's lambda
    that pre-decrements the shared counter and, when it reaches zero, calls
    [promise.set_value(result.code)],
    as a function of the counter: the new counter and the value given to
    the promise, if any. *)
Definition bootstrap_callOnce (result : Result) (counter : Z) : Z * option ResultCode :=
  let counter := uint32_dec counter in
  if counter =? 0 then (counter, Some (code result)) else (counter, None).

(** [future.get()] against the completions of the bootstrap task, in the
    order in which the workers finish: it returns as soon as a completion
    sets the promise, and never returns when none does. *)
Fixpoint future_get (completions : list Result) (counter : Z) : option ResultCode :=
  match completions with
  | [] => None
  | result :: rest =>
      match bootstrap_callOnce result counter with
      | (_, Some c) => Some c
      | (counter, None) => future_get rest counter
      end
  end.

(** [NapaZone::NapaZone(settings)].  [boot] is what the environment does
    with the bootstrap task placed on every worker: the results the
    workers resolve it with, in completion order. *)
Definition NapaZone_ctor (BOOTSTRAP_SOURCE : string)
    (settings : settings.ZoneSettings) (boot : list Result) : outcome NapaZone :=
  let scheduler := Scheduler_new settings in
  let counter := settings.workers settings in
  let bootstrapTask := EvalTask BOOTSTRAP_SOURCE EmptyString BootstrapCallOnce in
  let scheduler := Scheduler_call (ScheduleOnAllWorkers bootstrapTask) scheduler in
  match future_get boot counter with
  | None => Blocks
  | Some c =>
      NAPA_ASSERT (bool_decide (c = NAPA_RESULT_SUCCESS))
        (Returns {| _settings := settings; _scheduler := scheduler |})
  end.

(** The zone the constructor builds when it returns. *)
Definition constructed (src : string) (s : settings.ZoneSettings) : NapaZone :=
  {| _settings := s;
     _scheduler :=
       {| sched_settings := s;
          sched_calls := [ScheduleOnAllWorkers (EvalTask src EmptyString BootstrapCallOnce)] |} |}.

(** ** Process state: the static registry and the zones it refers to *)

(** The control block of a [std::make_shared<NapaZone>] allocation: the
    number of [shared_ptr]s that own the zone, and the zone.  The zone is
    destroyed when [use_count] drops to zero; the block itself stays
    allocated as long as a [weak_ptr] (a registry entry) refers to it. *)
Record ControlBlock : Type := {
  use_count : nat;
  object : NapaZone
}.

(** The statics of [napa-zone.cpp] and the zone allocations.  A
    [weak_ptr<NapaZone>] and a [shared_ptr<NapaZone>] are both the address
    of the control block; [nullptr] is [None].  [_mutex] serialises [Create]
    and [Get], which therefore run as atomic steps on this state. *)
Record Process : Type := {
  BOOTSTRAP_SOURCE : string;
  _zones : gmap string loc;
  zone_heap : list ControlBlock
}.

Definition set_zones (f : gmap string loc -> gmap string loc) (p : Process) : Process :=
  {| BOOTSTRAP_SOURCE := BOOTSTRAP_SOURCE p;
     _zones := f (_zones p);
     zone_heap := zone_heap p |}.

Definition set_zone_heap (f : list ControlBlock -> list ControlBlock) (p : Process) : Process :=
  {| BOOTSTRAP_SOURCE := BOOTSTRAP_SOURCE p;
     _zones := _zones p;
     zone_heap := f (zone_heap p) |}.

(** [weak_ptr::expired()]. *)
Definition expired (p : Process) (w : loc) : bool :=
  match zone_heap p !! w with
  | Some cb => bool_decide (use_count cb = 0%nat)
  | None => true
  end.

(** [weak_ptr::lock()]: a new owner of the zone, or [nullptr] when the
    zone is gone. *)
Definition lock (w : loc) (p : Process) : option loc * Process :=
  match zone_heap p !! w with
  | Some cb =>
      if bool_decide (use_count cb = 0%nat) then (None, p)
      else (Some w,
            set_zone_heap
              <[w := {| use_count := S (use_count cb); object := object cb |}]> p)
  | None => (None, p)
  end.

(** [std::make_shared]: a fresh control block owned once. *)
Definition make_shared (zone : NapaZone) (p : Process) : loc * Process :=
  (length (zone_heap p),
   set_zone_heap (fun h => h ++ [{| use_count := 1; object := zone |}]) p).

(** A holder drops its [shared_ptr] (destructor or [reset]); the last one
    destroys the zone.  The registry is not told. *)
Definition release (zone : loc) (p : Process) : Process :=
  match zone_heap p !! zone with
  | Some cb =>
      set_zone_heap
        <[zone := {| use_count := pred (use_count cb); object := object cb |}]> p
  | None => p
  end.

(** ** Registry operations *)

(** [NapaZone::Create(settings)]; [boot] is the environment's answer to the
    constructor's bootstrap broadcast, should the constructor run. *)
Definition Create (settings : settings.ZoneSettings) (boot : list Result)
    (p : Process) : outcome (option loc * Process) :=
  let iter := _zones p !! settings.id settings in
  if match iter with Some w => negb (expired p w) | None => false end
  then Returns (None, p)
  else
    match NapaZone_ctor (BOOTSTRAP_SOURCE p) settings boot with
    | Returns z =>
        let '(zone, p) := make_shared z p in
        let p := set_zones <[settings.id settings := zone]> p in
        Returns (Some zone, p)
    | Aborts => Aborts
    | Blocks => Blocks
    end.

(** [NapaZone::Get(id)]. *)
Definition Get (id : string) (p : Process) : option loc * Process :=
  match _zones p !! id with
  | None => (None, p)
  | Some w =>
      let '(zone, p) := lock w p in
      match zone with
      | None => (zone, set_zones (delete id) p)
      | Some _ => (zone, p)
      end
  end.

(** A live zone is registered under [id]: the entry exists and its
    referent has not been destroyed. *)
Definition is_live (p : Process) (id : string) : bool :=
  match _zones p !! id with
  | Some w => negb (expired p w)
  | None => false
  end.

(** The registry entry of [id] is stale: present, with a destroyed
    referent. *)
Definition is_stale (p : Process) (id : string) : bool :=
  match _zones p !! id with
  | Some w => expired p w
  | None => false
  end.

(** What clients of the registry can do. *)
Inductive Op : Type :=
  | OpCreate (settings : settings.ZoneSettings) (boot : list Result)
  | OpGet (id : string)
  | OpRelease (zone : loc).

Definition run_op (op : Op) (p : Process) : outcome Process :=
  match op with
  | OpCreate settings boot =>
      match Create settings boot p with
      | Returns (_, p) => Returns p
      | Aborts => Aborts
      | Blocks => Blocks
      end
  | OpGet id => Returns (snd (Get id p))
  | OpRelease zone => Returns (release zone p)
  end.

(** [zone] is owned by at least one [shared_ptr]. *)
Definition is_held (zone : loc) (p : Process) : bool := negb (expired p zone).

(** [p'] is reached from [p] by client operations, none of which leaves
    [zone] without an owner. *)
Inductive reaches_holding (zone : loc) (p : Process) : Process -> Prop :=
  | reaches_here : reaches_holding zone p p
  | reaches_step op p1 p2 :
      reaches_holding zone p p1 ->
      run_op op p1 = Returns p2 ->
      is_held zone p2 = true ->
      reaches_holding zone p p2.

(** [id] is registered to [zone], whose object is [o] and which has an
    owner. *)
Definition registered (id : string) (zone : loc) (o : NapaZone) (p : Process) : Prop :=
  _zones p !! id = Some zone /\
  object <$> (zone_heap p !! zone) = Some o /\
  is_held zone p = true.

(** ** Dispatch state *)

(** The heap cells [Broadcast] and [Execute] allocate, and the record of
    user-callback invocations.  [counters] holds the
    [std::atomic<uint32_t>] cells, [contexts] the [CallContext] objects;
    an address is an index, allocation appends. *)
Record Store : Type := {
  counters : list Z;
  contexts : list CallContext;
  invoked : list (CallbackHandle * Result)
}.

(** [std::make_shared<std::atomic<uint32_t>>(value)]. *)
Definition make_shared_counter (value : Z) (st : Store) : loc * Store :=
  (length (counters st),
   {| counters := counters st ++ [value];
      contexts := contexts st;
      invoked := invoked st |}).

(** [std::make_shared<CallContext>(spec, callback)]. *)
Definition make_shared_CallContext (spec : FunctionSpec) (callback : Callback)
    (st : Store) : loc * Store :=
  (length (contexts st),
   {| counters := counters st;
      contexts := contexts st ++ [{| ctx_spec := spec; ctx_callback := callback |}];
      invoked := invoked st |}).

(** Calling the user's [std::function] with [result]. *)
Definition call (callback : CallbackHandle) (result : Result) (st : Store) : Store :=
  {| counters := counters st;
     contexts := contexts st;
     invoked := invoked st ++ [(callback, result)] |}.

(** Running a context's callback.  For [callOnce] of [Broadcast]: the
    shared counter is pre-decremented and the user callback is called
    when it reaches zero. *)
Definition invoke (cb : Callback) (result : Result) (st : Store) : Store :=
  match cb with
  | UserCallback callback => call callback result st
  | BroadcastCallOnce counter callback =>
      match counters st !! counter with
      | Some c =>
          let c := uint32_dec c in
          let st := {| counters := <[counter := c]> (counters st);
                       contexts := contexts st;
                       invoked := invoked st |} in
          if c =? 0 then call callback result st else st
      | None => st
      end
  end.

(** ** Broadcast and Execute *)

(** One iteration of the loop of [Broadcast] for worker [id]. *)
Definition Broadcast_iteration (spec : FunctionSpec) (callOnce : Callback)
    (acc : Scheduler * Store) (id : WorkerId) : Scheduler * Store :=
  let '(scheduler, st) := acc in
  let '(context, st) := make_shared_CallContext spec callOnce st in
  let task :=
    if timeout (options spec) >? 0
    then TimeoutTaskDecorator (timeout (options spec)) (CallTask context)
    else CallTask context in
  (Scheduler_call (ScheduleOnWorker id task) scheduler, st).

(** [NapaZone::Broadcast(spec, callback)].  The loop
    [for (WorkerId id = 0; id < _settings.workers; id++)] visits
    [0, 1, ..., workers - 1]; [id] never wraps because it stops at
    [workers], itself a [uint32_t]. *)
Definition Broadcast (this : NapaZone) (spec : FunctionSpec)
    (callback : CallbackHandle) (st : Store) : NapaZone * Store :=
  let '(counter, st) := make_shared_counter (settings.workers (_settings this)) st in
  let callOnce := BroadcastCallOnce counter callback in
  let '(scheduler, st) :=
    foldl (Broadcast_iteration spec callOnce) (_scheduler this, st)
      (seqZ 0 (settings.workers (_settings this))) in
  ({| _settings := _settings this; _scheduler := scheduler |}, st).

(** [NapaZone::Execute(spec, callback)]. *)
Definition Execute (this : NapaZone) (spec : FunctionSpec)
    (callback : CallbackHandle) (st : Store) : NapaZone * Store :=
  let '(context, st) := make_shared_CallContext spec (UserCallback callback) st in
  let task :=
    if timeout (options spec) >? 0
    then TimeoutTaskDecorator (timeout (options spec)) (CallTask context)
    else CallTask context in
  ({| _settings := _settings this;
      _scheduler := Scheduler_call (Schedule task) (_scheduler this) |}, st).

(** ** Task completion *)

(** The call context a task resolves. *)
Fixpoint task_context (t : Task) : option loc :=
  match t with
  | EvalTask _ _ _ => None
  | CallTask context => Some context
  | TimeoutTaskDecorator _ inner => task_context inner
  end.

(** Modelled from the spec: [CallTask], [TimeoutTaskDecorator] and
    [CallContext::Resolve] are declared outside src/.  Sections 3 and 4.5
    make a context single-shot: whichever agent completes first (the
    worker, or the timeout watchdog) resolves it, which invokes the
    context's callback with that agent's result, once.  [resolve] is that
    first, winning resolution; later attempts on the same context are
    no-ops and are not completions, so a list of completions names each
    context at most once. *)
Definition resolve (t : Task) (result : Result) (st : Store) : Store :=
  match task_context t with
  | Some context =>
      match contexts st !! context with
      | Some ctx => invoke (ctx_callback ctx) result st
      | None => st
      end
  | None => st
  end.

(** A sequence of task completions, oldest first. *)
Definition run_completions (completions : list (Task * Result)) (st : Store) : Store :=
  foldl (fun st c => resolve (fst c) (snd c) st) st completions.

(** [callOnce] of [Broadcast] run once per result, oldest first. *)
Definition callOnce_all (counter : loc) (callback : CallbackHandle)
    (rs : list Result) (st : Store) : Store :=
  foldl (fun st r => invoke (BroadcastCallOnce counter callback) r st) st rs.

(** The task a scheduler call carries, and the tasks [Broadcast] or
    [Execute] added to a scheduler. *)
Definition call_task (c : SchedulerCall) : Task :=
  match c with
  | Schedule t | ScheduleOnWorker _ t | ScheduleOnAllWorkers t => t
  end.

Definition scheduled_since (before after : NapaZone) : list SchedulerCall :=
  drop (length (sched_calls (_scheduler before))) (sched_calls (_scheduler after)).

(** The task both [Broadcast] and [Execute] build around a context: a
    [CallTask], inside a [TimeoutTaskDecorator] exactly when the spec's
    timeout is positive. *)
Definition task_for (spec : FunctionSpec) (context : loc) : Task :=
  if timeout (options spec) >? 0
  then TimeoutTaskDecorator (timeout (options spec)) (CallTask context)
  else CallTask context.

(** The worker a scheduler call names, if it names one. *)
Definition call_worker (c : SchedulerCall) : option Z :=
  match c with
  | ScheduleOnWorker id _ => Some id
  | Schedule _ | ScheduleOnAllWorkers _ => None
  end.

(** ** Transport: the deserializer *)

Module transport.

(** [v8::SharedArrayBuffer::Contents]: a data pointer and a length. *)
Record Contents : Type := {
  Data : Z;
  ByteLength : Z
}.

(** A [v8::SharedArrayBuffer] created by [New(isolate, data, length)],
    with the data properties set on it; a property value is the
    shareable wrap of a [shared_ptr<ExternalizedContents>]. *)
Record SharedArrayBuffer : Type := {
  sab_data : Z;
  sab_byte_length : Z;
  sab_properties : list (string * loc)
}.

Definition SharedArrayBuffer_New (data byte_length : Z) : SharedArrayBuffer :=
  {| sab_data := data; sab_byte_length := byte_length; sab_properties := [] |}.

Definition CreateShareableWrap (externalized : loc) : loc := externalized.

Definition CreateDataProperty (key : string) (value : loc)
    (b : SharedArrayBuffer) : SharedArrayBuffer :=
  {| sab_data := sab_data b;
     sab_byte_length := sab_byte_length b;
     sab_properties := sab_properties b ++ [(key, value)] |}.

(** The calls a [v8::ValueDeserializer] receives. *)
Inductive DeserializerCall : Type :=
  | CallReadHeader
  | CallTransferSharedArrayBuffer (index : Z) (buffer : SharedArrayBuffer)
  | CallReadValue.

(** [v8::ValueDeserializer], seen from its caller: what [ReadHeader]
    answers ([Maybe<bool>]), what [ReadValue] answers given the buffers
    transferred so far ([MaybeLocal<Value>], a value being its wire
    text), and the calls received, in order. *)
Record ValueDeserializer : Type := {
  header : option bool;
  value : list (Z * SharedArrayBuffer) -> option string;
  transferred : list (Z * SharedArrayBuffer);
  received : list DeserializerCall
}.

Definition VD_ReadHeader (d : ValueDeserializer) : option bool * ValueDeserializer :=
  (header d,
   {| header := header d; value := value d; transferred := transferred d;
      received := received d ++ [CallReadHeader] |}).

Definition VD_TransferSharedArrayBuffer (index : Z) (b : SharedArrayBuffer)
    (d : ValueDeserializer) : ValueDeserializer :=
  {| header := header d; value := value d;
     transferred := transferred d ++ [(index, b)];
     received := received d ++ [CallTransferSharedArrayBuffer index b] |}.

Definition VD_ReadValue (d : ValueDeserializer) : option string * ValueDeserializer :=
  (value d (transferred d),
   {| header := header d; value := value d; transferred := transferred d;
      received := received d ++ [CallReadValue] |}).

(** [SerializedData]: the part [ReadValue] reads, the externalized
    buffers, each a pair of contents and the owner of the memory. *)
Record SerializedData : Type := {
  shared_array_buffer_contents : list (Contents * loc)
}.

Record Deserializer : Type := {
  _deserializer : ValueDeserializer;
  _data : SerializedData
}.

(** The buffer built for one entry of the loop of [ReadValue]. *)
Definition make_buffer (contents : Contents * loc) : SharedArrayBuffer :=
  let shared_array_buffer :=
    SharedArrayBuffer_New (Data (fst contents)) (ByteLength (fst contents)) in
  let sharedPtrWrap := CreateShareableWrap (snd contents) in
  CreateDataProperty "_externalized" sharedPtrWrap shared_array_buffer.

(** One iteration of the loop: [index] is a [uint32_t], post-incremented. *)
Definition ReadValue_iteration (acc : Z * ValueDeserializer)
    (contents : Contents * loc) : Z * ValueDeserializer :=
  let '(index, d) := acc in
  (uint32_inc index, VD_TransferSharedArrayBuffer index (make_buffer contents) d).

(** [Deserializer::ReadValue()]. *)
Definition ReadValue (this : Deserializer) : option string * Deserializer :=
  let '(read_header, d) := VD_ReadHeader (_deserializer this) in
  match read_header with
  | None => (None, {| _deserializer := d; _data := _data this |})
  | Some _ =>
      let '(_, d) :=
        foldl ReadValue_iteration (0, d)
          (shared_array_buffer_contents (_data this)) in
      let '(v, d) := VD_ReadValue d in
      (v, {| _deserializer := d; _data := _data this |})
  end.

(** The transfers the loop of [ReadValue] makes for [cs], starting at
    index [i0]. *)
Definition transfers (i0 : Z) (cs : list (Contents * nat)) : list (Z * SharedArrayBuffer) :=
  imap (fun k c => (i0 + Z.of_nat k, make_buffer c)) cs.

End transport.

(** ** Completions of several dispatches *)

#[global] Instance EvalCallback_eq_dec : EqDecision EvalCallback.
Proof. solve_decision. Defined.

#[global] Instance Callback_eq_dec : EqDecision Callback.
Proof. solve_decision. Defined.

#[global] Instance Task_eq_dec : EqDecision Task.
Proof. solve_decision. Defined.

(** The tasks handed to the scheduler between two states of a zone. *)
Definition scheduled_tasks (before after : NapaZone) : list Task :=
  call_task <$> scheduled_since before after.

(** The callback a task's completion runs, given the allocated contexts. *)
Definition task_callback (ctxs : list CallContext) (t : Task) : option Callback :=
  match task_context t with
  | Some context => ctx_callback <$> ctxs !! context
  | None => None
  end.

(** A completion callback that has nothing to do with the [callOnce]
    closure over [counter] and [callback]: it neither decrements that
    counter nor calls that user callback. *)
Definition foreign_to (counter : loc) (callback : CallbackHandle)
    (cb : option Callback) : Prop :=
  match cb with
  | None => True
  | Some (UserCallback callback') => callback' <> callback
  | Some (BroadcastCallOnce counter' callback') =>
      counter' <> counter /\ callback' <> callback
  end.

(** The invocations of one user callback in a log. *)
Definition calls_of (callback : CallbackHandle)
    (log : list (CallbackHandle * Result)) : list (CallbackHandle * Result) :=
  filter (fun e => fst e = callback) log.

(** ** Reachable processes and registry consistency *)

(** [p'] is reached from [p] by client operations that return. *)
Inductive reaches (p : Process) : Process -> Prop :=
  | reaches_refl : reaches p p
  | reaches_next op p1 p2 :
      reaches p p1 ->
      run_op op p1 = Returns p2 ->
      reaches p p2.

(** Every registry entry designates an allocated control block whose zone
    carries the entry's key as its id. *)
Definition registry_consistent (p : Process) : Prop :=
  forall id w, _zones p !! id = Some w ->
    exists cb, zone_heap p !! w = Some cb /\ GetId (object cb) = id.

(** ** Sample inputs *)

Definition ok : Result := {| code := NAPA_RESULT_SUCCESS; payload := EmptyString |}.

Definition zoneA : settings.ZoneSettings :=
  {| settings.id := "A"; settings.workers := 2 |}.

Definition zoneB : settings.ZoneSettings :=
  {| settings.id := "B"; settings.workers := 1 |}.

(** A process with no zone yet. *)
Definition process0 : Process :=
  {| BOOTSTRAP_SOURCE := "require('napajs');"; _zones := ∅; zone_heap := [] |}.

(** [process0] after [Create(zoneA)] returned handle [0]. *)
Definition processA : Process :=
  {| BOOTSTRAP_SOURCE := "require('napajs');";
     _zones := {[ "A" := 0%nat ]};
     zone_heap :=
       [ {| use_count := 1; object := constructed "require('napajs');" zoneA |} ] |}.

(** [processA] after the handle was dropped: zone "A" is destroyed, its
    registry entry is still there. *)
Definition processA_destroyed : Process := release 0%nat processA.

(** After [Create(zoneA)]: a lookup, another zone, and the lookup's handle
    dropped again. *)
Definition processA_later : Process :=
  release 0%nat
    (set_zones <[ "B" := 1%nat ]>
       (set_zone_heap
          (fun h => h ++ [ {| use_count := 1;
                              object := constructed "require('napajs');" zoneB |} ])
          (snd (Get "A" processA)))).

Definition broadcast_spec : FunctionSpec :=
  {| module := "counter"; function := "reset"; arguments := [];
     options := {| timeout := 0 |} |}.

Definition empty_store : Store :=
  {| counters := []; contexts := []; invoked := [] |}.

Definition failed : Result :=
  {| code := NAPA_RESULT_EXECUTION_ERROR; payload := "Error: reset" |}.

(** A call with a 50 ms timeout. *)
Definition timed_spec : FunctionSpec :=
  {| module := "counter"; function := "next"; arguments := ["1"];
     options := {| timeout := 50 |} |}.

(** A deserializer over data with two externalized buffers, whose header
    reads. *)
Definition sample_deserializer : transport.Deserializer :=
  {| transport._deserializer :=
       {| transport.header := Some true;
          transport.value := fun _ => Some "[object SharedArrayBuffer]";
          transport.transferred := [];
          transport.received := [] |};
     transport._data :=
       {| transport.shared_array_buffer_contents :=
            [ ({| transport.Data := 4096; transport.ByteLength := 4 |}, 0%nat);
              ({| transport.Data := 8192; transport.ByteLength := 16 |}, 1%nat) ] |} |}.

(** The same data behind a deserializer whose header does not read. *)
Definition broken_deserializer : transport.Deserializer :=
  {| transport._deserializer :=
       {| transport.header := None;
          transport.value := fun _ => Some "[object SharedArrayBuffer]";
          transport.transferred := [];
          transport.received := [] |};
     transport._data := transport._data sample_deserializer |}.

(** * Properties *)

(** ** The bootstrap barrier *)

Lemma uint32_dec_pos (n : Z) :
  0 < n < UINT32_MODULUS -> uint32_dec n = n - 1.
Proof.
  intros Hn. unfold uint32_dec. apply Z.mod_small. unfold UINT32_MODULUS in *. lia.
Qed.

(** With fewer completions than workers the promise is never set: the
    constructor keeps waiting. *)
Lemma future_get_waits (completions : list Result) (n : Z) :
  n < UINT32_MODULUS ->
  Z.of_nat (length completions) < n ->
  future_get completions n = None.
Proof.
  revert n. induction completions as [|r rest IH]; intros n Hn Hlen; [done|].
  cbn [length] in Hlen. cbn [future_get]. unfold bootstrap_callOnce.
  rewrite uint32_dec_pos by lia.
  destruct (n - 1 =? 0) eqn:E; [lia|]. apply IH; lia.
Qed.

(** With one completion per worker the promise receives the code of the
    last completion, whatever the earlier ones were. *)
Lemma future_get_last (completions : list Result) (n : Z) :
  0 < n < UINT32_MODULUS ->
  Z.of_nat (length completions) = n ->
  future_get completions n = code <$> last completions.
Proof.
  revert n. induction completions as [|r rest IH]; intros n Hn Hlen.
  { cbn in Hlen. lia. }
  cbn [length] in Hlen. cbn [future_get]. unfold bootstrap_callOnce.
  rewrite uint32_dec_pos by lia.
  destruct (n - 1 =? 0) eqn:E.
  - assert (rest = []) as -> by (destruct rest; [done | cbn in Hlen; lia]). done.
  - rewrite IH by lia. destruct rest as [|r' rest']; [cbn in Hlen; lia | done].
Qed.

Lemma NapaZone_ctor_Returns (src : string) (s : settings.ZoneSettings)
    (boot : list Result) (z : NapaZone) :
  NapaZone_ctor src s boot = Returns z -> z = constructed src s.
Proof.
  unfold NapaZone_ctor, NAPA_ASSERT.
  destruct (future_get boot _) as [c|]; [|done].
  case_bool_decide; [|done]. by intros [= <-].
Qed.

(** The constructor is decided by the last worker to finish. *)
Lemma NapaZone_ctor_last (src : string) (s : settings.ZoneSettings)
    (boot : list Result) (r : Result) :
  0 < settings.workers s < UINT32_MODULUS ->
  Z.of_nat (length boot) = settings.workers s ->
  last boot = Some r ->
  NapaZone_ctor src s boot =
    if bool_decide (code r = NAPA_RESULT_SUCCESS)
    then Returns (constructed src s) else Aborts.
Proof.
  intros Hw Hlen Hlast. unfold NapaZone_ctor, NAPA_ASSERT.
  rewrite future_get_last, Hlast by done. cbn. by case_bool_decide.
Qed.

(** C2 (evaluation at the failing input): on a zone of two workers where
    the bootstrap script fails on the worker that finishes first and
    succeeds on the one that finishes last, the constructor does not abort;
    it returns the zone.  The failure of the first worker is dropped by
    [callOnce], which hands only the last completion's code to the
    promise. *)
Theorem NapaZone_ctor_early_failure_returns (src : string) :
  NapaZone_ctor src
    {| settings.id := "zone"; settings.workers := 2 |}
    [ {| code := NAPA_RESULT_BROADCAST_SCRIPT_ERROR; payload := "Error: bootstrap" |};
      {| code := NAPA_RESULT_SUCCESS; payload := EmptyString |} ]
  = Returns (constructed src {| settings.id := "zone"; settings.workers := 2 |}).
Proof. reflexivity. Qed.

(** ** The registry *)

Lemma is_live_Some (p : Process) (id : string) :
  is_live p id = true <->
  exists w cb, _zones p !! id = Some w /\ zone_heap p !! w = Some cb /\ use_count cb <> 0%nat.
Proof.
  unfold is_live, expired. split.
  - destruct (_zones p !! id) as [w|]; [|done].
    destruct (zone_heap p !! w) as [cb|] eqn:Hcb; [|done].
    case_bool_decide; [done|]. intros _. by exists w, cb.
  - intros (w & cb & -> & -> & Hc). by rewrite bool_decide_eq_false_2.
Qed.

Lemma Create_live (s : settings.ZoneSettings) (boot : list Result) (p : Process) :
  is_live p (settings.id s) = true -> Create s boot p = Returns (None, p).
Proof. unfold Create, is_live. by intros ->. Qed.

Lemma Create_not_live (s : settings.ZoneSettings) (boot : list Result)
    (p : Process) (z : NapaZone) :
  is_live p (settings.id s) = false ->
  NapaZone_ctor (BOOTSTRAP_SOURCE p) s boot = Returns z ->
  Create s boot p =
    Returns (Some (length (zone_heap p)),
             set_zones <[settings.id s := length (zone_heap p)]>
               (set_zone_heap (fun h => h ++ [{| use_count := 1; object := z |}]) p)).
Proof. unfold Create, is_live. by intros -> ->. Qed.

Lemma Create_Some_inv (s : settings.ZoneSettings) (boot : list Result)
    (p p' : Process) (zone : loc) :
  Create s boot p = Returns (Some zone, p') ->
  is_live p (settings.id s) = false /\
  zone = length (zone_heap p) /\
  p' = set_zones <[settings.id s := zone]>
         (set_zone_heap
            (fun h => h ++ [{| use_count := 1;
                               object := constructed (BOOTSTRAP_SOURCE p) s |}]) p).
Proof.
  intros H. destruct (is_live p (settings.id s)) eqn:Hl.
  { by rewrite Create_live in H. }
  split; [done|]. unfold Create, is_live in *. rewrite Hl in H.
  destruct (NapaZone_ctor _ s boot) as [z| |] eqn:Hc; [|done..].
  apply NapaZone_ctor_Returns in Hc as ->. cbn in H. by simplify_eq.
Qed.

Lemma Create_None_inv (s : settings.ZoneSettings) (boot : list Result)
    (p p' : Process) :
  Create s boot p = Returns (None, p') ->
  is_live p (settings.id s) = true /\ p' = p.
Proof.
  intros H. destruct (is_live p (settings.id s)) eqn:Hl.
  { rewrite Create_live in H by done. by simplify_eq. }
  unfold Create, is_live in *. rewrite Hl in H.
  destruct (NapaZone_ctor _ s boot); [|done..]. cbn in H. by simplify_eq.
Qed.

Lemma Get_absent (id : string) (p : Process) :
  _zones p !! id = None -> Get id p = (None, p).
Proof. unfold Get. by intros ->. Qed.

Lemma Get_expired (id : string) (p : Process) (w : loc) :
  _zones p !! id = Some w -> expired p w = true ->
  Get id p = (None, set_zones (delete id) p).
Proof.
  unfold Get, lock, expired. intros ->.
  destruct (zone_heap p !! w) as [cb|]; [|done].
  case_bool_decide; done.
Qed.

Lemma Get_live (id : string) (p : Process) (w : loc) (cb : ControlBlock) :
  _zones p !! id = Some w -> zone_heap p !! w = Some cb -> use_count cb <> 0%nat ->
  Get id p =
    (Some w,
     set_zone_heap <[w := {| use_count := S (use_count cb); object := object cb |}]> p).
Proof.
  unfold Get, lock. intros -> -> Hc. by rewrite bool_decide_eq_false_2.
Qed.

Lemma expired_false (p : Process) (w : loc) :
  expired p w = false <->
  exists cb, zone_heap p !! w = Some cb /\ use_count cb <> 0%nat.
Proof.
  unfold expired. split.
  - destruct (zone_heap p !! w) as [cb|] eqn:Hcb; [|done].
    case_bool_decide; [done|]. intros _. by exists cb.
  - intros (cb & -> & Hc). by rewrite bool_decide_eq_false_2.
Qed.

(** [release] never touches the registry: a destroyed zone leaves its
    entry behind. *)
Lemma release_zones (zone : loc) (p : Process) :
  _zones (release zone p) = _zones p.
Proof. unfold release. by destruct (zone_heap p !! zone). Qed.

(** *** Operations preserve a held zone's registration *)

Section held_zone.
Variables (id : string) (zone : loc) (o : NapaZone).

Lemma registered_is_live (p : Process) : registered id zone o p -> is_live p id = true.
Proof. intros (Hz & _ & Hh). unfold is_live. by rewrite Hz. Qed.

Lemma registered_Create (s : settings.ZoneSettings) (boot : list Result)
    (r : option loc) (p p' : Process) :
  registered id zone o p -> Create s boot p = Returns (r, p') ->
  _zones p' !! id = Some zone /\ object <$> (zone_heap p' !! zone) = Some o.
Proof.
  intros Hreg HC. pose proof Hreg as (Hz & Ho & Hh).
  destruct r as [z'|].
  - apply Create_Some_inv in HC as (Hl & -> & ->). cbn.
    assert (settings.id s <> id) as Hne.
    { intros Heq. apply registered_is_live in Hreg. rewrite <- Heq in Hreg. congruence. }
    rewrite lookup_insert_ne by done. split; [done|].
    destruct (zone_heap p !! zone) as [cb|] eqn:Hcb; [|done].
    by rewrite (lookup_app_l_Some _ _ _ _ Hcb).
  - by apply Create_None_inv in HC as (_ & ->).
Qed.

Lemma registered_Get (id' : string) (p : Process) :
  registered id zone o p ->
  _zones (snd (Get id' p)) !! id = Some zone /\
  object <$> (zone_heap (snd (Get id' p)) !! zone) = Some o.
Proof.
  intros (Hz & Ho & Hh).
  apply negb_true_iff, expired_false in Hh as (cb & Hcb & Hc).
  destruct (_zones p !! id') as [w|] eqn:Hw; [|by rewrite Get_absent].
  destruct (expired p w) eqn:He.
  - rewrite (Get_expired _ _ _ Hw He). cbn. split; [|done].
    rewrite lookup_delete_ne; [done|]. intros ->.
    assert (w = zone) as -> by congruence.
    unfold expired in He. rewrite Hcb in He. by rewrite bool_decide_eq_false_2 in He.
  - apply expired_false in He as (cb' & Hcb' & Hc').
    rewrite (Get_live _ _ _ _ Hw Hcb' Hc'). cbn. split; [done|].
    destruct (decide (w = zone)) as [->|Hne].
    + rewrite list_lookup_insert_eq by (by eapply lookup_lt_Some).
      rewrite Hcb in Ho. by simplify_eq.
    + by rewrite list_lookup_insert_ne.
Qed.

Lemma registered_release (zone' : loc) (p : Process) :
  registered id zone o p ->
  _zones (release zone' p) !! id = Some zone /\
  object <$> (zone_heap (release zone' p) !! zone) = Some o.
Proof.
  intros (Hz & Ho & Hh). rewrite release_zones. split; [done|].
  unfold release. destruct (zone_heap p !! zone') as [cb'|] eqn:Hcb'; [|done].
  cbn. destruct (decide (zone' = zone)) as [->|Hne].
  - rewrite list_lookup_insert_eq by (by eapply lookup_lt_Some).
    rewrite Hcb' in Ho. by simplify_eq.
  - by rewrite list_lookup_insert_ne.
Qed.

Lemma registered_step (op : Op) (p p' : Process) :
  registered id zone o p -> run_op op p = Returns p' -> is_held zone p' = true ->
  registered id zone o p'.
Proof.
  intros Hreg Hop Hh. destruct op as [s boot|id'|zone']; cbn in Hop.
  - destruct (Create s boot p) as [[r p'']| |] eqn:HC; [|done..].
    simplify_eq. destruct (registered_Create _ _ _ _ _ Hreg HC). by split.
  - simplify_eq. destruct (registered_Get id' _ Hreg). by split.
  - simplify_eq. destruct (registered_release zone' _ Hreg). by split.
Qed.

Lemma registered_reaches (p p' : Process) :
  registered id zone o p -> reaches_holding zone p p' -> registered id zone o p'.
Proof. intros Hreg. induction 1; eauto using registered_step. Qed.

End held_zone.

Lemma Create_registered (s : settings.ZoneSettings) (boot : list Result)
    (p p' : Process) (zone : loc) :
  Create s boot p = Returns (Some zone, p') ->
  registered (settings.id s) zone (constructed (BOOTSTRAP_SOURCE p) s) p'.
Proof.
  intros (_ & -> & ->)%Create_Some_inv. unfold registered, is_held, expired. cbn.
  rewrite lookup_insert_eq, list_lookup_middle by done. done.
Qed.

(** *** Claims on the registry *)

(** Dropping the only owner of a freshly created zone destroys it and
    leaves its registry entry in place, expired. *)
Lemma Create_release_stale (s : settings.ZoneSettings) (boot : list Result)
    (p p' : Process) (zone : loc) :
  Create s boot p = Returns (Some zone, p') ->
  _zones (release zone p') !! settings.id s = Some zone /\
  is_stale (release zone p') (settings.id s) = true.
Proof.
  intros (_ & -> & ->)%Create_Some_inv.
  unfold is_stale, release, expired. cbn.
  rewrite list_lookup_middle by done. cbn.
  rewrite lookup_insert_eq. split; [done|].
  rewrite list_lookup_insert_eq by (rewrite length_app; cbn; lia). done.
Qed.

(** When the bootstrap task succeeds on every worker of a zone with at
    least one worker, the constructor returns the zone. *)
Lemma NapaZone_ctor_all_success (src : string) (s : settings.ZoneSettings)
    (boot : list Result) :
  0 < settings.workers s < UINT32_MODULUS ->
  Z.of_nat (length boot) = settings.workers s ->
  Forall (fun r => code r = NAPA_RESULT_SUCCESS) boot ->
  NapaZone_ctor src s boot = Returns (constructed src s).
Proof.
  intros Hw Hlen Hall.
  destruct (last boot) as [r|] eqn:Hlast.
  - rewrite (NapaZone_ctor_last src s boot r Hw Hlen Hlast).
    rewrite bool_decide_eq_true_2; [done|].
    apply last_Some_elem_of in Hlast. by eapply Forall_forall in Hall.
  - apply last_None in Hlast. subst boot. cbn in Hlen. lia.
Qed.

(** C3, as stated, fails: no live zone holds the id "A" in [process0], yet
    [Create] returns no handle when the bootstrap script fails on the
    workers of the new zone; the constructor's assertion ends the
    process. *)
Lemma Create_free_id_aborts_on_failed_bootstrap :
  is_live process0 (settings.id zoneA) = false /\
  Create zoneA [failed; failed] process0 = Aborts /\
  ~ exists zone p', Create zoneA [failed; failed] process0 = Returns (Some zone, p').
Proof. split_and!; [reflexivity..|]. by intros (zone & p' & H). Qed.

(** C3, amended: when a live zone is registered under [settings.id],
    [Create] returns no handle (the already-exists outcome) and changes
    nothing; when none is, and the bootstrap script succeeds on every
    worker of the new zone (one completion per worker, the number of
    workers a positive [uint32_t]), [Create] returns a new handle: an
    address that was not allocated before, owned once, designating the
    constructed zone and registered under the id. *)
Theorem Create_already_exists_or_bootstrapped (s : settings.ZoneSettings)
    (boot : list Result) (p : Process) :
  (is_live p (settings.id s) = true -> Create s boot p = Returns (None, p)) /\
  (is_live p (settings.id s) = false ->
   0 < settings.workers s < UINT32_MODULUS ->
   Z.of_nat (length boot) = settings.workers s ->
   Forall (fun r => code r = NAPA_RESULT_SUCCESS) boot ->
   exists zone p',
     Create s boot p = Returns (Some zone, p') /\
     zone_heap p !! zone = None /\
     zone_heap p' !! zone =
       Some {| use_count := 1; object := constructed (BOOTSTRAP_SOURCE p) s |} /\
     _zones p' !! settings.id s = Some zone).
Proof.
  split; [apply Create_live|].
  intros Hl Hw Hlen Hall. eexists _, _.
  split; [by apply Create_not_live, NapaZone_ctor_all_success|]. cbn.
  rewrite lookup_insert_eq, list_lookup_middle by done.
  split_and!; [|done..]. by apply lookup_ge_None_2.
Qed.

Lemma Create_already_exists_or_bootstrapped_witness :
  Create zoneA [ok; ok] processA = Returns (None, processA) /\
  exists zone p',
    Create zoneA [ok; ok] process0 = Returns (Some zone, p') /\
    zone_heap process0 !! zone = None /\
    zone_heap p' !! zone =
      Some {| use_count := 1; object := constructed "require('napajs');" zoneA |} /\
    _zones p' !! "A" = Some zone.
Proof.
  split.
  - apply (proj1 (Create_already_exists_or_bootstrapped zoneA [ok; ok] processA)).
    vm_compute. reflexivity.
  - apply (proj2 (Create_already_exists_or_bootstrapped zoneA [ok; ok] process0)).
    + vm_compute. reflexivity.
    + vm_compute. split; reflexivity.
    + reflexivity.
    + repeat constructor.
Defined.

(** C9: whenever [Create] returns no handle, a live zone is registered
    under the id and nothing has changed: the registry is the same map
    (the live entry is neither overwritten nor removed) and so are the
    zone allocations (no zone, hence no scheduler and no worker, was
    constructed).  The constructor is not even started: the outcome is the
    same whatever the environment would have answered to a bootstrap
    broadcast. *)
Theorem Create_failure_has_no_side_effects (s : settings.ZoneSettings)
    (boot : list Result) (p p' : Process) :
  Create s boot p = Returns (None, p') ->
  is_live p (settings.id s) = true /\
  p' = p /\
  _zones p' = _zones p /\
  zone_heap p' = zone_heap p /\
  forall boot', Create s boot' p = Returns (None, p).
Proof.
  intros (Hl & ->)%Create_None_inv. split_and!; [done..|].
  intros boot'. by apply Create_live.
Qed.

Lemma Create_failure_has_no_side_effects_witness :
  is_live processA "A" = true /\
  processA = processA /\
  _zones processA = _zones processA /\
  zone_heap processA = zone_heap processA /\
  forall boot', Create zoneA boot' processA = Returns (None, processA).
Proof.
  apply (Create_failure_has_no_side_effects zoneA [ok; ok] processA processA).
  vm_compute. reflexivity.
Defined.

(** C5, as stated, fails: zone "A" of [processA_destroyed] has been
    destroyed and its entry is stale, yet [Create] with that id does not
    succeed when the bootstrap script fails on the workers of the new zone;
    the constructor's assertion ends the process. *)
Lemma Create_stale_id_aborts_on_failed_bootstrap :
  is_stale processA_destroyed (settings.id zoneA) = true /\
  Create zoneA [failed; failed] processA_destroyed = Aborts /\
  ~ exists zone p',
      Create zoneA [failed; failed] processA_destroyed = Returns (Some zone, p').
Proof. split_and!; [reflexivity..|]. by intros (zone & p' & H). Qed.

(** C5, amended: when the registry still holds an entry for [settings.id]
    whose zone has been destroyed (no owner is left; nothing removed the
    entry), and the bootstrap script succeeds on every worker of the new
    zone (one completion per worker, the number of workers a positive
    [uint32_t]), [Create] with that id succeeds: it returns a fresh handle,
    different from the destroyed zone's, and registers it in place of the
    stale entry. *)
Theorem Create_after_destroy_bootstrapped (s : settings.ZoneSettings)
    (boot : list Result) (p : Process) (w : loc) (cb : ControlBlock) :
  _zones p !! settings.id s = Some w ->
  zone_heap p !! w = Some cb ->
  use_count cb = 0%nat ->
  0 < settings.workers s < UINT32_MODULUS ->
  Z.of_nat (length boot) = settings.workers s ->
  Forall (fun r => code r = NAPA_RESULT_SUCCESS) boot ->
  exists zone p',
    Create s boot p = Returns (Some zone, p') /\
    zone <> w /\
    zone_heap p !! zone = None /\
    zone_heap p' !! zone =
      Some {| use_count := 1; object := constructed (BOOTSTRAP_SOURCE p) s |} /\
    zone_heap p' !! w = Some cb /\
    _zones p' !! settings.id s = Some zone /\
    is_live p' (settings.id s) = true.
Proof.
  intros Hw Hcb Hc Hn Hlen Hall.
  assert (is_live p (settings.id s) = false) as Hl.
  { unfold is_live, expired. rewrite Hw, Hcb. by rewrite bool_decide_eq_true_2. }
  eexists _, _.
  split; [by apply Create_not_live, NapaZone_ctor_all_success|].
  unfold is_live, expired. cbn.
  rewrite lookup_insert_eq, list_lookup_middle by done.
  rewrite (lookup_app_l_Some _ _ _ _ Hcb).
  split_and!; [|by apply lookup_ge_None_2|done..].
  apply lookup_lt_Some in Hcb. lia.
Qed.

Lemma Create_after_destroy_bootstrapped_witness :
  _zones processA_destroyed !! "A" = Some 0%nat /\
  exists zone p',
    Create zoneA [ok; ok] processA_destroyed = Returns (Some zone, p') /\
    zone <> 0%nat /\
    zone_heap processA_destroyed !! zone = None /\
    zone_heap p' !! zone =
      Some {| use_count := 1; object := constructed "require('napajs');" zoneA |} /\
    zone_heap p' !! 0%nat =
      Some {| use_count := 0; object := constructed "require('napajs');" zoneA |} /\
    _zones p' !! "A" = Some zone /\
    is_live p' "A" = true.
Proof.
  split; [vm_compute; reflexivity|].
  apply (Create_after_destroy_bootstrapped zoneA [ok; ok] processA_destroyed 0%nat
           {| use_count := 0; object := constructed "require('napajs');" zoneA |}).
  - vm_compute. reflexivity.
  - vm_compute. reflexivity.
  - reflexivity.
  - vm_compute. split; reflexivity.
  - reflexivity.
  - repeat constructor.
Defined.

(** C6: [Get] returns the live zone when a live entry exists (the returned
    handle is one more owner of it), and returns nothing when there is no
    entry or when the entry's zone has been destroyed; in that last case
    the entry is erased.  That erasure is the only change [Get] makes to
    the registry, and [Get] never changes a zone. *)
Theorem Get_lookup_and_lazy_reap (id : string) (p : Process) :
  (is_live p id = true ->
   exists w cb,
     _zones p !! id = Some w /\ zone_heap p !! w = Some cb /\
     Get id p =
       (Some w,
        set_zone_heap
          <[w := {| use_count := S (use_count cb); object := object cb |}]> p)) /\
  (_zones p !! id = None -> Get id p = (None, p)) /\
  (is_stale p id = true -> Get id p = (None, set_zones (delete id) p)) /\
  _zones (snd (Get id p)) =
    (if is_stale p id then delete id (_zones p) else _zones p) /\
  object <$> zone_heap (snd (Get id p)) = object <$> zone_heap p.
Proof.
  assert (is_live p id = true ->
          exists w cb,
            _zones p !! id = Some w /\ zone_heap p !! w = Some cb /\
            Get id p =
              (Some w,
               set_zone_heap
                 <[w := {| use_count := S (use_count cb); object := object cb |}]> p))
    as Hlive.
  { intros (w & cb & Hw & Hcb & Hc)%is_live_Some.
    exists w, cb. split_and!; [done..|]. by apply Get_live. }
  assert (is_stale p id = true -> Get id p = (None, set_zones (delete id) p))
    as Hstale.
  { unfold is_stale. destruct (_zones p !! id) as [w|] eqn:Hw; [|done].
    by apply Get_expired. }
  split_and!; [done|apply Get_absent|done|..].
  - destruct (is_stale p id) eqn:Hs; [by rewrite Hstale|].
    unfold is_stale in Hs. destruct (_zones p !! id) as [w|] eqn:Hw.
    + destruct Hlive as (w' & cb & _ & _ & ->); [|done].
      unfold is_live. by rewrite Hw, Hs.
    + by rewrite Get_absent.
  - destruct (is_stale p id) eqn:Hs; [by rewrite Hstale|].
    unfold is_stale in Hs. destruct (_zones p !! id) as [w|] eqn:Hw.
    + destruct Hlive as (w' & cb & _ & Hcb & ->).
      { unfold is_live. by rewrite Hw, Hs. }
      cbn [snd set_zone_heap zone_heap]. rewrite list_fmap_insert.
      apply list_insert_id. by rewrite list_lookup_fmap, Hcb.
    + by rewrite Get_absent.
Qed.

Lemma Get_lookup_and_lazy_reap_witness :
  (exists w cb,
     _zones processA !! "A" = Some w /\ zone_heap processA !! w = Some cb /\
     Get "A" processA =
       (Some w,
        set_zone_heap
          <[w := {| use_count := S (use_count cb); object := object cb |}]> processA)) /\
  Get "B" processA = (None, processA) /\
  Get "A" processA_destroyed = (None, set_zones (delete "A") processA_destroyed).
Proof.
  split_and!.
  - apply (proj1 (Get_lookup_and_lazy_reap "A" processA)). vm_compute. reflexivity.
  - apply (proj1 (proj2 (Get_lookup_and_lazy_reap "B" processA))).
    vm_compute. reflexivity.
  - apply (proj1 (proj2 (proj2 (Get_lookup_and_lazy_reap "A" processA_destroyed)))).
    vm_compute. reflexivity.
Defined.

(** C4: after [Create] returned a handle for [settings.id], and through
    any later creations, lookups and releases that leave the zone with an
    owner (the reference [Create] returned is still held), [Get] of that
    id returns the same handle, and the zone it designates reports that
    id. *)
Theorem Get_after_Create (s : settings.ZoneSettings) (boot : list Result)
    (p p1 p2 : Process) (zone : loc) :
  Create s boot p = Returns (Some zone, p1) ->
  reaches_holding zone p1 p2 ->
  exists p3 cb,
    Get (settings.id s) p2 = (Some zone, p3) /\
    zone_heap p3 !! zone = Some cb /\
    GetId (object cb) = settings.id s.
Proof.
  intros HC Hreach.
  apply Create_registered in HC.
  destruct (registered_reaches _ _ _ _ _ HC Hreach) as (Hz & Ho & Hh).
  apply negb_true_iff, expired_false in Hh as (cb & Hcb & Hc).
  eexists _, _. split; [by eapply Get_live|]. cbn.
  rewrite list_lookup_insert_eq by (by eapply lookup_lt_Some).
  split; [done|]. cbn. rewrite Hcb in Ho. cbn in Ho. injection Ho as Ho.
  by rewrite Ho.
Qed.

Lemma Get_after_Create_witness :
  exists p3 cb,
    Get "A" processA_later = (Some 0%nat, p3) /\
    zone_heap p3 !! 0%nat = Some cb /\
    GetId (object cb) = "A".
Proof.
  apply (Get_after_Create zoneA [ok; ok] process0 processA processA_later 0%nat).
  - vm_compute. reflexivity.
  - apply (reaches_step _ _ (OpRelease 0%nat)
             (set_zones <[ "B" := 1%nat ]>
                (set_zone_heap
                   (fun h => h ++ [ {| use_count := 1;
                                       object := constructed "require('napajs');" zoneB |} ])
                   (snd (Get "A" processA))))).
    + apply (reaches_step _ _ (OpCreate zoneB [ok]) (snd (Get "A" processA))).
      * apply (reaches_step _ _ (OpGet "A") processA).
        -- apply reaches_here.
        -- reflexivity.
        -- vm_compute. reflexivity.
      * vm_compute. reflexivity.
      * vm_compute. reflexivity.
    + reflexivity.
    + vm_compute. reflexivity.
Defined.

(** ** Broadcast and Execute *)

Lemma task_for_context (spec : FunctionSpec) (context : loc) :
  task_context (task_for spec context) = Some context.
Proof. unfold task_for. by destruct (timeout (options spec) >? 0). Qed.

Lemma task_for_decorated (spec : FunctionSpec) (context : loc) :
  (exists ms inner, task_for spec context = TimeoutTaskDecorator ms inner) <->
  timeout (options spec) > 0.
Proof.
  unfold task_for. destruct (timeout (options spec) >? 0) eqn:E.
  - split; [lia | eauto].
  - split; [by intros (? & ? & ?) | lia].
Qed.

(** The loop of [Broadcast] over any list of worker ids: one new context
    and one [ScheduleOnWorker] call per id, in order. *)
Lemma Broadcast_loop (spec : FunctionSpec) (callOnce : Callback)
    (ids : list Z) (scheduler : Scheduler) (st : Store) :
  foldl (Broadcast_iteration spec callOnce) (scheduler, st) ids =
    ({| sched_settings := sched_settings scheduler;
        sched_calls :=
          sched_calls scheduler ++
          zip_with (fun id context => ScheduleOnWorker id (task_for spec context))
            ids (seq (length (contexts st)) (length ids)) |},
     {| counters := counters st;
        contexts :=
          contexts st ++
          replicate (length ids) {| ctx_spec := spec; ctx_callback := callOnce |};
        invoked := invoked st |}).
Proof.
  revert scheduler st. induction ids as [|id ids IH]; intros scheduler st.
  { cbn. rewrite !app_nil_r. by destruct scheduler, st. }
  cbn [foldl]. unfold Broadcast_iteration at 2. cbn [make_shared_CallContext].
  rewrite IH. cbn [contexts counters invoked sched_settings sched_calls Scheduler_call].
  rewrite length_app, Nat.add_1_r. cbn [length seq zip_with replicate].
  by rewrite <- !app_assoc.
Qed.

Lemma zip_with_seqZ_seq {A : Type} (g : Z -> nat -> A) (n k base : nat) :
  zip_with g ((fun i => Z.of_nat i + 0) <$> seq k n) (seq (base + k) n) =
  (fun i => g (Z.of_nat i) (base + i)%nat) <$> seq k n.
Proof.
  revert k. induction n as [|n IH]; intros k; [done|].
  cbn [seq fmap list_fmap zip_with]. rewrite Z.add_0_r. f_equal.
  rewrite <- IH. by rewrite Nat.add_succ_r.
Qed.

Lemma Broadcast_eq (this : NapaZone) (spec : FunctionSpec)
    (callback : CallbackHandle) (st : Store) :
  let n := Z.to_nat (settings.workers (_settings this)) in
  let callOnce := BroadcastCallOnce (length (counters st)) callback in
  Broadcast this spec callback st =
    ({| _settings := _settings this;
        _scheduler :=
          {| sched_settings := sched_settings (_scheduler this);
             sched_calls :=
               sched_calls (_scheduler this) ++
               ((fun i => ScheduleOnWorker (Z.of_nat i)
                            (task_for spec (length (contexts st) + i)%nat))
                  <$> seq 0 n) |} |},
     {| counters := counters st ++ [settings.workers (_settings this)];
        contexts :=
          contexts st ++ replicate n {| ctx_spec := spec; ctx_callback := callOnce |};
        invoked := invoked st |}).
Proof.
  intros n callOnce. unfold Broadcast. cbn [make_shared_counter].
  rewrite Broadcast_loop. cbn [contexts counters invoked]. rewrite length_seqZ.
  fold n. unfold seqZ. fold n.
  pose proof (zip_with_seqZ_seq
                (fun id context => ScheduleOnWorker id (task_for spec context))
                n 0 (length (contexts st))) as Hzip.
  rewrite Nat.add_0_r in Hzip. by rewrite Hzip.
Qed.

Lemma scheduled_since_app (this this' : NapaZone) (new : list SchedulerCall) :
  sched_calls (_scheduler this') = sched_calls (_scheduler this) ++ new ->
  scheduled_since this this' = new.
Proof. unfold scheduled_since. intros ->. by rewrite drop_app_length. Qed.

Lemma Broadcast_scheduled (this : NapaZone) (spec : FunctionSpec)
    (callback : CallbackHandle) (st : Store) :
  scheduled_since this (fst (Broadcast this spec callback st)) =
  (fun i => ScheduleOnWorker (Z.of_nat i)
              (task_for spec (length (contexts st) + i)%nat))
    <$> seq 0 (Z.to_nat (settings.workers (_settings this))).
Proof. apply scheduled_since_app. by rewrite Broadcast_eq. Qed.

(** C7: [Broadcast] on a zone of N workers allocates one counter cell
    initialised to N; builds N call contexts, each from [spec] and the same
    [callOnce] closure over that one cell; wraps the task of each context
    in a [TimeoutTaskDecorator] exactly when [spec.options.timeout > 0];
    and makes N calls to the scheduler, all [ScheduleOnWorker], the i-th
    for worker i with the task of the i-th new context, so that the
    workers named are 0, 1, ..., N-1, each once.  No user callback runs
    during the call. *)
Theorem Broadcast_contexts_and_schedule (this : NapaZone) (spec : FunctionSpec)
    (callback : CallbackHandle) (st : Store) :
  let workers := settings.workers (_settings this) in
  let callOnce := BroadcastCallOnce (length (counters st)) callback in
  let this' := fst (Broadcast this spec callback st) in
  let st' := snd (Broadcast this spec callback st) in
  counters st' = counters st ++ [workers] /\
  contexts st' =
    contexts st ++
    replicate (Z.to_nat workers) {| ctx_spec := spec; ctx_callback := callOnce |} /\
  invoked st' = invoked st /\
  _settings this' = _settings this /\
  sched_calls (_scheduler this') =
    sched_calls (_scheduler this) ++ scheduled_since this this' /\
  scheduled_since this this' =
    (fun i => ScheduleOnWorker (Z.of_nat i)
                (task_for spec (length (contexts st) + i)%nat))
      <$> seq 0 (Z.to_nat workers) /\
  call_worker <$> scheduled_since this this' = Some <$> seqZ 0 workers /\
  (forall c, c ∈ scheduled_since this this' ->
     (exists ms inner, call_task c = TimeoutTaskDecorator ms inner) <->
     timeout (options spec) > 0).
Proof.
  intros workers callOnce this' st'.
  pose proof (Broadcast_scheduled this spec callback st) as Hs.
  fold this' workers in Hs. subst this' st'. rewrite Hs.
  rewrite Broadcast_eq. cbn [fst snd counters contexts invoked _settings
                              _scheduler sched_calls].
  split_and!; try done.
  - rewrite <- list_fmap_compose. unfold seqZ. rewrite <- list_fmap_compose.
    apply list_fmap_ext. intros i x _. cbn. f_equal. lia.
  - intros c (i & -> & _)%list_elem_of_fmap. cbn [call_task].
    apply task_for_decorated.
Qed.

Lemma Broadcast_contexts_and_schedule_witness :
  scheduled_since (constructed "require('napajs');" zoneA)
    (fst (Broadcast (constructed "require('napajs');" zoneA) timed_spec 7%nat empty_store))
  = [ ScheduleOnWorker 0 (TimeoutTaskDecorator 50 (CallTask 0%nat));
      ScheduleOnWorker 1 (TimeoutTaskDecorator 50 (CallTask 1%nat)) ] /\
  counters
    (snd (Broadcast (constructed "require('napajs');" zoneA) timed_spec 7%nat empty_store))
  = [2].
Proof.
  pose proof (Broadcast_contexts_and_schedule
                (constructed "require('napajs');" zoneA) timed_spec 7%nat empty_store)
    as H.
  cbv zeta in H. destruct H as (Hcounters & _ & _ & _ & _ & Hcalls & _).
  split; [exact Hcalls | exact Hcounters].
Defined.

(** [Execute] schedules the task of one new context whose callback is the
    user's. *)
Lemma Execute_eq (this : NapaZone) (spec : FunctionSpec)
    (callback : CallbackHandle) (st : Store) :
  Execute this spec callback st =
    ({| _settings := _settings this;
        _scheduler :=
          {| sched_settings := sched_settings (_scheduler this);
             sched_calls :=
               sched_calls (_scheduler this) ++
               [Schedule (task_for spec (length (contexts st)))] |} |},
     {| counters := counters st;
        contexts :=
          contexts st ++ [{| ctx_spec := spec; ctx_callback := UserCallback callback |}];
        invoked := invoked st |}).
Proof. reflexivity. Qed.

(** C8: [Execute] builds exactly one call context, from [spec] and the
    user's callback; builds one task for it, a [CallTask] wrapped in a
    [TimeoutTaskDecorator] with the spec's timeout exactly when
    [spec.options.timeout > 0], and the bare [CallTask] otherwise; and makes
    exactly one call to the scheduler, [Schedule] with that task, leaving
    the choice of worker to the scheduler.  Nothing else changes. *)
Theorem Execute_schedules_one_task (this : NapaZone) (spec : FunctionSpec)
    (callback : CallbackHandle) (st : Store) :
  let this' := fst (Execute this spec callback st) in
  let st' := snd (Execute this spec callback st) in
  let context := length (contexts st) in
  contexts st' =
    contexts st ++ [{| ctx_spec := spec; ctx_callback := UserCallback callback |}] /\
  counters st' = counters st /\
  invoked st' = invoked st /\
  _settings this' = _settings this /\
  sched_calls (_scheduler this') =
    sched_calls (_scheduler this) ++ scheduled_since this this' /\
  exists task,
    scheduled_since this this' = [Schedule task] /\
    task_context task = Some context /\
    (timeout (options spec) > 0 ->
     task = TimeoutTaskDecorator (timeout (options spec)) (CallTask context)) /\
    (~ timeout (options spec) > 0 -> task = CallTask context).
Proof.
  intros this' st' context.
  assert (scheduled_since this this' = [Schedule (task_for spec context)]) as Hs.
  { apply scheduled_since_app. subst this'. by rewrite Execute_eq. }
  rewrite Hs. subst this' st'. rewrite Execute_eq. cbn.
  split_and!; try done.
  exists (task_for spec context).
  split_and!; [done|apply task_for_context|..]; unfold task_for;
    destruct (timeout (options spec) >? 0) eqn:E; intros; (done || lia).
Qed.

Lemma Execute_schedules_one_task_witness :
  exists task,
    scheduled_since (constructed "require('napajs');" zoneA)
      (fst (Execute (constructed "require('napajs');" zoneA) timed_spec 7%nat empty_store))
    = [Schedule task] /\
    task = TimeoutTaskDecorator 50 (CallTask 0%nat).
Proof.
  pose proof (Execute_schedules_one_task
                (constructed "require('napajs');" zoneA) timed_spec 7%nat empty_store)
    as H.
  cbv zeta in H. destruct H as (_ & _ & _ & _ & _ & task & Hcalls & _ & Hpos & _).
  exists task. split; [exact Hcalls|]. apply Hpos. reflexivity.
Defined.

(** ** Broadcast completions *)

Lemma invoke_contexts (cb : Callback) (r : Result) (st : Store) :
  contexts (invoke cb r st) = contexts st.
Proof.
  destruct cb as [callback|counter callback]; cbn; [done|].
  destruct (counters st !! counter) as [c|]; [|done].
  by destruct (uint32_dec c =? 0).
Qed.

Section callOnce.
Variables (counter : nat) (callback : nat).

Lemma callOnce_all_cons (r : Result) (rs : list Result) (st : Store) :
  callOnce_all counter callback (r :: rs) st =
  callOnce_all counter callback rs (invoke (BroadcastCallOnce counter callback) r st).
Proof. reflexivity. Qed.

(** One run of [callOnce] on a counter holding a positive [n]. *)
Lemma invoke_callOnce (r : Result) (st : Store) (n : Z) :
  counters st !! counter = Some n ->
  0 < n < UINT32_MODULUS ->
  invoke (BroadcastCallOnce counter callback) r st =
    {| counters := <[counter := n - 1]> (counters st);
       contexts := contexts st;
       invoked := if n =? 1 then invoked st ++ [(callback, r)] else invoked st |}.
Proof.
  intros Hc Hn. cbn [invoke]. rewrite Hc, uint32_dec_pos by done.
  destruct (n - 1 =? 0) eqn:E, (n =? 1) eqn:E'; (done || lia).
Qed.

(** Counting down from [n] with exactly [n] results: the user callback
    is called once, at the last result. *)
Lemma callOnce_all_countdown (rs : list Result) (st : Store) (n : Z) (r : Result) :
  counters st !! counter = Some n ->
  0 < n < UINT32_MODULUS ->
  Z.of_nat (length rs) = n ->
  last rs = Some r ->
  invoked (callOnce_all counter callback rs st) = invoked st ++ [(callback, r)].
Proof.
  revert st n. induction rs as [|r0 rest IH]; intros st n Hc Hn Hlen Hlast; [done|].
  cbn [length] in Hlen. rewrite callOnce_all_cons, (invoke_callOnce _ _ n) by done.
  destruct (n =? 1) eqn:E.
  - assert (rest = []) as -> by (destruct rest; [done | cbn in Hlen; lia]).
    cbn in Hlast. by simplify_eq.
  - erewrite (IH _ (n - 1)); [done| |lia|lia|].
    + cbn. apply list_lookup_insert_eq. by eapply lookup_lt_Some.
    + destruct rest; [cbn in Hlen; lia | done].
Qed.

(** Before the last result, nothing is called. *)
Lemma callOnce_all_silent (rs : list Result) (st : Store) (n : Z) :
  counters st !! counter = Some n ->
  n < UINT32_MODULUS ->
  Z.of_nat (length rs) < n ->
  invoked (callOnce_all counter callback rs st) = invoked st.
Proof.
  revert st n. induction rs as [|r0 rest IH]; intros st n Hc Hn Hlen; [done|].
  cbn [length] in Hlen. rewrite callOnce_all_cons, (invoke_callOnce _ _ n) by (done || lia).
  destruct (n =? 1) eqn:E; [lia|].
  erewrite (IH _ (n - 1)); [done| |lia|lia].
  cbn. apply list_lookup_insert_eq. by eapply lookup_lt_Some.
Qed.

(** Completions of tasks whose contexts all carry [callOnce] amount to
    running [callOnce] on their results. *)
Lemma run_completions_callOnce (completions : list (Task * Result)) (st : Store) :
  Forall (fun c =>
            exists context ctx,
              task_context (fst c) = Some context /\
              contexts st !! context = Some ctx /\
              ctx_callback ctx = BroadcastCallOnce counter callback)
         completions ->
  run_completions completions st = callOnce_all counter callback (snd <$> completions) st.
Proof.
  revert st. induction completions as [|[t r] rest IH]; intros st Hall; [done|].
  apply Forall_cons in Hall as [(context & ctx & Ht & Hctx & Hcb) Hall].
  cbn [run_completions callOnce_all foldl fmap list_fmap fst snd] in *.
  assert (resolve t r st = invoke (BroadcastCallOnce counter callback) r st) as ->.
  { unfold resolve. by rewrite Ht, Hctx, Hcb. }
  apply IH. eapply Forall_impl; [done|].
  intros c (context' & ctx' & ? & ? & ?). exists context', ctx'.
  by rewrite invoke_contexts.
Qed.
End callOnce.

(** C1: after [Broadcast] on a zone of N workers (N a positive
    [uint32_t]), let the N tasks it scheduled complete, each once, in any
    order and with any results.  Then the user callback has been called
    exactly once over those N completions, and with the result of the
    completion that came last; the results of the earlier completions are
    not delivered. *)
Theorem Broadcast_callback_once_with_last_result (this : NapaZone)
    (spec : FunctionSpec) (callback : CallbackHandle) (st : Store)
    (completions : list (Task * Result)) (t : Task) (r : Result) :
  0 < settings.workers (_settings this) < UINT32_MODULUS ->
  fst <$> completions ≡ₚ
    call_task <$> scheduled_since this (fst (Broadcast this spec callback st)) ->
  last completions = Some (t, r) ->
  invoked (run_completions completions (snd (Broadcast this spec callback st))) =
    invoked st ++ [(callback, r)].
Proof.
  intros Hw Hperm Hlast.
  rewrite Broadcast_scheduled in Hperm. rewrite Broadcast_eq. cbn [snd].
  set (n := Z.to_nat (settings.workers (_settings this))) in *.
  rewrite run_completions_callOnce with (counter := length (counters st))
                                        (callback := callback).
  - erewrite callOnce_all_countdown; [done| | | |].
    + cbn. by apply list_lookup_middle.
    + done.
    + rewrite length_fmap. rewrite <- (length_fmap fst completions).
      rewrite Hperm, !length_fmap, length_seq. lia.
    + by rewrite fmap_last, Hlast.
  - apply Forall_forall. intros [t' r'] Hin.
    assert (t' ∈ fst <$> completions) as Ht'.
    { apply list_elem_of_fmap. by exists (t', r'). }
    rewrite Hperm in Ht'.
    apply list_elem_of_fmap in Ht' as (c & -> & Hc).
    apply list_elem_of_fmap in Hc as (i & -> & Hi).
    apply elem_of_seq in Hi. cbn [fst call_task contexts].
    exists (length (contexts st) + i)%nat,
      {| ctx_spec := spec;
         ctx_callback := BroadcastCallOnce (length (counters st)) callback |}.
    split; [apply task_for_context|]. split; [|done].
    rewrite lookup_app_r by lia.
    apply lookup_replicate_2. lia.
Qed.

(** Two workers; worker 1 finishes first and fails, worker 0 finishes last
    and succeeds: the callback (handle 7) is called once, with success. *)
Lemma Broadcast_callback_once_with_last_result_witness :
  invoked
    (run_completions [(CallTask 1%nat, failed); (CallTask 0%nat, ok)]
       (snd (Broadcast (constructed "require('napajs');" zoneA)
               broadcast_spec 7%nat empty_store)))
  = [(7%nat, ok)].
Proof.
  apply (Broadcast_callback_once_with_last_result
           (constructed "require('napajs');" zoneA) broadcast_spec 7%nat
           empty_store [(CallTask 1%nat, failed); (CallTask 0%nat, ok)]
           (CallTask 0%nat) ok).
  - vm_compute. split; reflexivity.
  - vm_compute. apply perm_swap.
  - reflexivity.
Defined.

(** ** Transport *)

Module transport_properties.
Import transport.

Lemma transfers_cons (i0 : Z) (c : Contents * nat) (cs : list (Contents * nat)) :
  transfers i0 (c :: cs) = (i0, make_buffer c) :: transfers (i0 + 1) cs.
Proof.
  unfold transfers. cbn [imap]. rewrite Z.add_0_r. f_equal.
  apply imap_ext. intros k x _. cbn. f_equal. lia.
Qed.

Lemma uint32_inc_small (i : Z) :
  0 <= i -> i + 1 < UINT32_MODULUS -> uint32_inc i = i + 1.
Proof. intros. unfold uint32_inc. apply Z.mod_small. lia. Qed.

(** The loop: as long as the index does not wrap, the k-th entry is
    transferred at index [i0 + k], in the stored order. *)
Lemma ReadValue_loop (cs : list (Contents * nat)) (i0 : Z) (d : ValueDeserializer) :
  0 <= i0 ->
  i0 + Z.of_nat (length cs) <= UINT32_MODULUS ->
  snd (foldl ReadValue_iteration (i0, d) cs) =
    {| header := header d;
       value := value d;
       transferred := transferred d ++ transfers i0 cs;
       received :=
         received d ++
         (uncurry CallTransferSharedArrayBuffer <$> transfers i0 cs) |}.
Proof.
  revert i0 d. induction cs as [|c cs IH]; intros i0 d Hi Hlen.
  { cbn. rewrite !app_nil_r. by destruct d. }
  cbn [foldl ReadValue_iteration]. rewrite transfers_cons.
  destruct cs as [|c' cs'].
  { cbn. by destruct d. }
  cbn [length] in Hlen. rewrite uint32_inc_small by lia.
  rewrite IH by (cbn [length]; lia).
  cbn [VD_TransferSharedArrayBuffer header value transferred received
       fmap list_fmap uncurry].
  by rewrite <- !app_assoc.
Qed.

(** C10: [ReadValue] first asks the deserializer for the header.  When
    that fails (the [Maybe] is empty) it returns the empty [MaybeLocal]
    and the deserializer has received nothing but the header read: no
    buffer was transferred, no value was read.  Otherwise it transfers
    one buffer per stored shared-array-buffer contents entry, the k-th
    entry at index k (0, 1, 2, ... in the stored order, for a store of at
    most 2^32 entries, the range of the [uint32_t] index), and only then
    reads the value, which it returns. *)
Theorem ReadValue_header_then_transfers (this : Deserializer) :
  let d := _deserializer this in
  let cs := shared_array_buffer_contents (_data this) in
  let buffers := imap (fun k c => (Z.of_nat k, make_buffer c)) cs in
  (header d = None ->
   ReadValue this =
     (None,
      {| _deserializer :=
           {| header := header d; value := value d;
              transferred := transferred d;
              received := received d ++ [CallReadHeader] |};
         _data := _data this |})) /\
  (is_Some (header d) ->
   Z.of_nat (length cs) <= UINT32_MODULUS ->
   ReadValue this =
     (value d (transferred d ++ buffers),
      {| _deserializer :=
           {| header := header d; value := value d;
              transferred := transferred d ++ buffers;
              received :=
                received d ++ [CallReadHeader] ++
                (uncurry CallTransferSharedArrayBuffer <$> buffers) ++
                [CallReadValue] |};
         _data := _data this |})).
Proof.
  intros d cs buffers. unfold ReadValue. cbn [VD_ReadHeader]. fold d cs.
  split.
  - by intros ->.
  - intros [b Hb] Hlen. rewrite Hb.
    pose proof (ReadValue_loop cs 0
                  {| header := Some b; value := value d;
                     transferred := transferred d;
                     received := received d ++ [CallReadHeader] |}
                  ltac:(done) ltac:(lia)) as Hloop.
    destruct (foldl ReadValue_iteration _ cs) as [index d'].
    cbn [snd] in Hloop. subst d'.
    cbn [VD_ReadValue header value transferred received].
    replace (transfers 0 cs) with buffers.
    2:{ unfold transfers, buffers. apply imap_ext. intros k x _. cbn. f_equal. }
    by rewrite <- !app_assoc.
Qed.

Lemma ReadValue_header_then_transfers_witness :
  ReadValue broken_deserializer =
    (None,
     {| _deserializer :=
          {| header := None;
             value := value (_deserializer broken_deserializer);
             transferred := [];
             received := [CallReadHeader] |};
        _data := _data broken_deserializer |}) /\
  fst (ReadValue sample_deserializer) = Some "[object SharedArrayBuffer]" /\
  received (_deserializer (snd (ReadValue sample_deserializer))) =
    [ CallReadHeader;
      CallTransferSharedArrayBuffer 0
        {| sab_data := 4096; sab_byte_length := 4;
           sab_properties := [("_externalized", 0%nat)] |};
      CallTransferSharedArrayBuffer 1
        {| sab_data := 8192; sab_byte_length := 16;
           sab_properties := [("_externalized", 1%nat)] |};
      CallReadValue ].
Proof.
  split.
  - apply (proj1 (ReadValue_header_then_transfers broken_deserializer)). reflexivity.
  - assert (is_Some (header (_deserializer sample_deserializer))) as Hh
      by (exists true; reflexivity).
    assert (Z.of_nat (length (shared_array_buffer_contents (_data sample_deserializer)))
            <= UINT32_MODULUS) as Hl
      by (vm_compute; discriminate).
    rewrite (proj2 (ReadValue_header_then_transfers sample_deserializer) Hh Hl).
    split; reflexivity.
Defined.

End transport_properties.

(** * Further properties of the registry *)

Lemma Get_result (id : string) (p : Process) :
  Get id p =
    (if is_live p id then _zones p !! id else None,
     snd (Get id p)).
Proof.
  destruct (_zones p !! id) as [w|] eqn:Hw.
  - destruct (expired p w) eqn:He.
    + rewrite (Get_expired _ _ _ Hw He). unfold is_live. by rewrite Hw, He.
    + apply expired_false in He as (cb & Hcb & Hc).
      rewrite (Get_live _ _ _ _ Hw Hcb Hc). unfold is_live, expired.
      by rewrite Hw, Hcb, bool_decide_eq_false_2.
  - rewrite Get_absent by done. unfold is_live. by rewrite Hw.
Qed.

Lemma Get_fst (id : string) (p : Process) :
  fst (Get id p) = if is_live p id then _zones p !! id else None.
Proof. by rewrite Get_result. Qed.

Lemma Get_Some_inv (id : string) (p p' : Process) (zone : loc) :
  Get id p = (Some zone, p') ->
  exists cb,
    _zones p !! id = Some zone /\ zone_heap p !! zone = Some cb /\
    use_count cb <> 0%nat /\
    p' = set_zone_heap
           <[zone := {| use_count := S (use_count cb); object := object cb |}]> p.
Proof.
  intros HG. destruct (_zones p !! id) as [w|] eqn:Hw.
  - destruct (expired p w) eqn:He.
    + by rewrite (Get_expired _ _ _ Hw He) in HG.
    + apply expired_false in He as (cb & Hcb & Hc).
      rewrite (Get_live _ _ _ _ Hw Hcb Hc) in HG. simplify_eq. by exists cb.
  - by rewrite Get_absent in HG.
Qed.

Lemma registry_consistent_step (op : Op) (p p' : Process) :
  registry_consistent p -> run_op op p = Returns p' -> registry_consistent p'.
Proof.
  intros Hwf Hop id w Hid. destruct op as [s boot|id'|zone']; cbn in Hop.
  - destruct (Create s boot p) as [[r p'']| |] eqn:HC; [|done..]. simplify_eq.
    destruct r as [z|].
    + apply Create_Some_inv in HC as (_ & -> & ->). cbn in *.
      destruct (decide (settings.id s = id)) as [<-|Hne].
      * rewrite lookup_insert_eq in Hid. simplify_eq.
        eexists. by rewrite list_lookup_middle.
      * rewrite lookup_insert_ne in Hid by done.
        destruct (Hwf _ _ Hid) as (cb & Hcb & Hcid).
        exists cb. by rewrite (lookup_app_l_Some _ _ _ _ Hcb).
    + apply Create_None_inv in HC as (_ & ->). by apply Hwf.
  - simplify_eq. destruct (_zones p !! id') as [w'|] eqn:Hw'.
    + destruct (expired p w') eqn:He.
      * rewrite (Get_expired _ _ _ Hw' He) in Hid |- *. cbn in *.
        apply lookup_delete_Some in Hid as [_ Hid]. by apply Hwf.
      * apply expired_false in He as (cb' & Hcb' & Hc').
        rewrite (Get_live _ _ _ _ Hw' Hcb' Hc') in *. cbn in *.
        destruct (Hwf _ _ Hid) as (cb & Hcb & Hcid).
        destruct (decide (w' = w)) as [->|Hne].
        -- eexists. rewrite list_lookup_insert_eq by (by eapply lookup_lt_Some).
           split; [done|]. cbn. by simplify_eq.
        -- exists cb. by rewrite list_lookup_insert_ne.
    + rewrite Get_absent in Hid |- * by done. by apply Hwf.
  - simplify_eq. rewrite release_zones in Hid.
    destruct (Hwf _ _ Hid) as (cb & Hcb & Hcid).
    unfold release. destruct (zone_heap p !! zone') as [cb'|] eqn:Hcb'; [|by exists cb].
    cbn. destruct (decide (zone' = w)) as [->|Hne].
    + eexists. rewrite list_lookup_insert_eq by (by eapply lookup_lt_Some).
      split; [done|]. cbn. by simplify_eq.
    + exists cb. by rewrite list_lookup_insert_ne.
Qed.

Lemma registry_consistent_reaches (p p' : Process) :
  registry_consistent p -> reaches p p' -> registry_consistent p'.
Proof. intros Hwf. induction 1; eauto using registry_consistent_step. Qed.

Lemma registry_consistent_empty (p : Process) :
  _zones p = ∅ -> registry_consistent p.
Proof. intros He id w. by rewrite He, lookup_empty. Qed.

(** X1: in every process reached from an empty registry by [Create],
    [Get] and handle releases, a zone returned by [Get(id)] reports [id]
    from [GetId]. *)
Theorem Get_returns_zone_with_that_id (p0 p p' : Process) (id : string) (zone : loc) :
  _zones p0 = ∅ ->
  reaches p0 p ->
  Get id p = (Some zone, p') ->
  exists cb, zone_heap p' !! zone = Some cb /\ GetId (object cb) = id.
Proof.
  intros H0 Hr HG.
  pose proof (registry_consistent_reaches _ _ (registry_consistent_empty _ H0) Hr) as Hwf.
  apply Get_Some_inv in HG as (cb & Hid & Hcb & _ & ->).
  destruct (Hwf _ _ Hid) as (cb' & Hcb' & Hcid). simplify_eq. cbn.
  eexists. rewrite list_lookup_insert_eq by (by eapply lookup_lt_Some). done.
Qed.

Lemma reaches_processA_later : reaches process0 processA_later.
Proof.
  apply (reaches_next _ (OpRelease 0%nat)
           (set_zones <[ "B" := 1%nat ]>
              (set_zone_heap
                 (fun h => h ++ [ {| use_count := 1;
                                     object := constructed "require('napajs');" zoneB |} ])
                 (snd (Get "A" processA))))).
  - apply (reaches_next _ (OpCreate zoneB [ok]) (snd (Get "A" processA))).
    + apply (reaches_next _ (OpGet "A") processA).
      * apply (reaches_next _ (OpCreate zoneA [ok; ok]) process0).
        -- apply reaches_refl.
        -- vm_compute. reflexivity.
      * reflexivity.
    + vm_compute. reflexivity.
  - reflexivity.
Defined.

Lemma Get_returns_zone_with_that_id_witness :
  exists cb,
    zone_heap (snd (Get "B" processA_later)) !! 1%nat = Some cb /\
    GetId (object cb) = "B".
Proof.
  apply (Get_returns_zone_with_that_id process0 processA_later
           (snd (Get "B" processA_later)) "B" 1%nat).
  - reflexivity.
  - exact reaches_processA_later.
  - vm_compute. reflexivity.
Defined.

(** X2: in every process reached from an empty registry, two different
    ids are never registered to the same zone. *)
Theorem registry_never_aliases (p0 p : Process) (id1 id2 : string) (w : loc) :
  _zones p0 = ∅ ->
  reaches p0 p ->
  _zones p !! id1 = Some w ->
  _zones p !! id2 = Some w ->
  id1 = id2.
Proof.
  intros H0 Hr H1 H2.
  pose proof (registry_consistent_reaches _ _ (registry_consistent_empty _ H0) Hr) as Hwf.
  destruct (Hwf _ _ H1) as (cb1 & Hcb1 & <-).
  destruct (Hwf _ _ H2) as (cb2 & Hcb2 & <-). by simplify_eq.
Qed.

Lemma registry_never_aliases_witness : "B" = "B".
Proof.
  apply (registry_never_aliases process0 processA_later "B" "B" 1%nat).
  - reflexivity.
  - exact reaches_processA_later.
  - vm_compute. reflexivity.
  - vm_compute. reflexivity.
Defined.

(** X3: taking a handle with [Get] and dropping it again leaves the
    process exactly as it was. *)
Theorem Get_release_round_trip (id : string) (p : Process) :
  is_live p id = true ->
  exists zone,
    fst (Get id p) = Some zone /\
    release zone (snd (Get id p)) = p.
Proof.
  intros (w & cb & Hw & Hcb & Hc)%is_live_Some. exists w.
  rewrite (Get_live _ _ _ _ Hw Hcb Hc). split; [done|]. cbn [snd].
  unfold release. cbn.
  rewrite list_lookup_insert_eq by (by eapply lookup_lt_Some). cbn.
  unfold set_zone_heap. cbn.
  rewrite list_insert_insert_eq.
  rewrite list_insert_id by (by destruct cb). by destruct p.
Qed.

Lemma Get_release_round_trip_witness :
  exists zone,
    fst (Get "A" processA) = Some zone /\
    release zone (snd (Get "A" processA)) = processA.
Proof.
  apply (Get_release_round_trip "A" processA). vm_compute. reflexivity.
Defined.

(** X4: [Get] changes the liveness of no id: not of the id looked up
    (erasing a stale entry leaves it not live), not of any other. *)
Theorem Get_preserves_liveness (id id' : string) (p : Process) :
  is_live (snd (Get id p)) id' = is_live p id'.
Proof.
  destruct (_zones p !! id) as [w|] eqn:Hw; [|by rewrite Get_absent].
  destruct (expired p w) eqn:He.
  - rewrite (Get_expired _ _ _ Hw He). unfold is_live, expired. cbn.
    destruct (decide (id = id')) as [<-|Hne].
    + rewrite lookup_delete_eq, Hw. unfold expired in He. by rewrite He.
    + by rewrite lookup_delete_ne.
  - apply expired_false in He as (cb & Hcb & Hc).
    rewrite (Get_live _ _ _ _ Hw Hcb Hc). unfold is_live, expired. cbn.
    destruct (_zones p !! id') as [w'|]; [|done].
    destruct (decide (w = w')) as [<-|Hne].
    + rewrite list_lookup_insert_eq by (by eapply lookup_lt_Some).
      rewrite Hcb. cbn. by rewrite !bool_decide_eq_false_2.
    + by rewrite list_lookup_insert_ne.
Qed.

(** X5: [Get] answers the same the second time: the same handle for a live
    zone, nothing otherwise; and once [Get(id)] has run, the registry holds
    no stale entry for [id]. *)
Theorem Get_twice (id : string) (p : Process) :
  fst (Get id (snd (Get id p))) = fst (Get id p) /\
  is_stale (snd (Get id p)) id = false.
Proof.
  rewrite !Get_fst, Get_preserves_liveness.
  destruct (is_live p id) eqn:Hl.
  - pose proof Hl as (w & cb & Hw & Hcb & Hc)%is_live_Some.
    rewrite (Get_live _ _ _ _ Hw Hcb Hc). unfold is_stale, expired. cbn.
    rewrite Hw. split; [done|].
    rewrite list_lookup_insert_eq by (by eapply lookup_lt_Some). done.
  - split; [done|]. unfold is_live in Hl. unfold is_stale.
    destruct (_zones p !! id) as [w|] eqn:Hw.
    + apply negb_false_iff in Hl. rewrite (Get_expired _ _ _ Hw Hl). cbn.
      by rewrite lookup_delete_eq.
    + rewrite Get_absent by done. cbn. by rewrite Hw.
Qed.

(** X6: [Get(id)] returns a handle exactly when a live zone is registered
    under [id]. *)
Theorem Get_Some_iff_live (id : string) (p : Process) :
  is_Some (fst (Get id p)) <-> is_live p id = true.
Proof.
  rewrite Get_fst. destruct (is_live p id) eqn:Hl.
  - apply is_live_Some in Hl as (w & cb & -> & _). split; [done | by eexists].
  - split; [by intros [? ?] | done].
Qed.

(** X7: after [Create] has refused an id, [Get] of that id returns the
    zone that was in the way, the one already registered. *)
Theorem Create_refused_then_Get (s : settings.ZoneSettings) (boot : list Result)
    (p p' : Process) :
  Create s boot p = Returns (None, p') ->
  exists zone,
    _zones p !! settings.id s = Some zone /\
    fst (Get (settings.id s) p') = Some zone.
Proof.
  intros (Hl & ->)%Create_None_inv.
  rewrite Get_fst, Hl. apply is_live_Some in Hl as (w & cb & Hw & _). by exists w.
Qed.

Lemma Create_refused_then_Get_witness :
  exists zone,
    _zones processA !! "A" = Some zone /\
    fst (Get "A" processA) = Some zone.
Proof.
  apply (Create_refused_then_Get zoneA [ok; ok] processA processA).
  vm_compute. reflexivity.
Defined.

(** X8: whatever [Create] returns, it leaves the entries of all other ids
    and every existing control block (owners and zone) as they were. *)
Theorem Create_leaves_others_alone (s : settings.ZoneSettings) (boot : list Result)
    (p p' : Process) (r : option loc) :
  Create s boot p = Returns (r, p') ->
  (forall id', id' <> settings.id s -> _zones p' !! id' = _zones p !! id') /\
  (forall w cb, zone_heap p !! w = Some cb -> zone_heap p' !! w = Some cb).
Proof.
  intros HC. destruct r as [zone|].
  - apply Create_Some_inv in HC as (_ & -> & ->). cbn. split.
    + intros id' Hne. by rewrite lookup_insert_ne.
    + intros w cb Hcb. by apply lookup_app_l_Some.
  - by apply Create_None_inv in HC as (_ & ->).
Qed.

Lemma Create_leaves_others_alone_witness :
  (forall id', id' <> "B" ->
     _zones (set_zones <[ "B" := 1%nat ]>
               (set_zone_heap
                  (fun h => h ++ [ {| use_count := 1;
                                      object := constructed "require('napajs');" zoneB |} ])
                  processA)) !! id'
     = _zones processA !! id') /\
  (forall w cb, zone_heap processA !! w = Some cb ->
     zone_heap (set_zones <[ "B" := 1%nat ]>
                  (set_zone_heap
                     (fun h => h ++ [ {| use_count := 1;
                                         object := constructed "require('napajs');" zoneB |} ])
                     processA)) !! w
     = Some cb).
Proof.
  apply (Create_leaves_others_alone zoneB [ok] processA _ (Some 1%nat)).
  vm_compute. reflexivity.
Defined.

(** X9: once [Create] has returned a handle for an id, and through any
    later creations, lookups and releases that leave that zone with an
    owner (it has not been destroyed), every further [Create] with that
    id, whatever its other settings, is refused and changes nothing. *)
Theorem Create_twice_same_id (s s' : settings.ZoneSettings) (boot boot' : list Result)
    (p p1 p2 : Process) (zone : loc) :
  Create s boot p = Returns (Some zone, p1) ->
  reaches_holding zone p1 p2 ->
  settings.id s' = settings.id s ->
  Create s' boot' p2 = Returns (None, p2).
Proof.
  intros HC Hreach Hid. apply Create_live. rewrite Hid.
  eapply registered_is_live, registered_reaches; [|done].
  by eapply Create_registered.
Qed.

Lemma reaches_holding_processA_later : reaches_holding 0%nat processA processA_later.
Proof.
  apply (reaches_step _ _ (OpRelease 0%nat)
           (set_zones <[ "B" := 1%nat ]>
              (set_zone_heap
                 (fun h => h ++ [ {| use_count := 1;
                                     object := constructed "require('napajs');" zoneB |} ])
                 (snd (Get "A" processA))))).
  - apply (reaches_step _ _ (OpCreate zoneB [ok]) (snd (Get "A" processA))).
    + apply (reaches_step _ _ (OpGet "A") processA).
      * apply reaches_here.
      * reflexivity.
      * vm_compute. reflexivity.
    + vm_compute. reflexivity.
    + vm_compute. reflexivity.
  - reflexivity.
  - vm_compute. reflexivity.
Defined.

Lemma Create_twice_same_id_witness :
  Create {| settings.id := "A"; settings.workers := 8 |} [] processA_later
  = Returns (None, processA_later).
Proof.
  apply (Create_twice_same_id zoneA {| settings.id := "A"; settings.workers := 8 |}
           [ok; ok] [] process0 processA processA_later 0%nat).
  - vm_compute. reflexivity.
  - exact reaches_holding_processA_later.
  - reflexivity.
Defined.

(** X10: when the handle [Create] returned is dropped and nobody else
    holds the zone, the next [Get] of the id finds nothing and erases the
    entry. *)
Theorem Create_release_Get_reaps (s : settings.ZoneSettings) (boot : list Result)
    (p p1 : Process) (zone : loc) :
  Create s boot p = Returns (Some zone, p1) ->
  Get (settings.id s) (release zone p1) =
    (None, set_zones (delete (settings.id s)) (release zone p1)) /\
  _zones (snd (Get (settings.id s) (release zone p1))) !! settings.id s = None.
Proof.
  intros (Hz & Hs)%Create_release_stale.
  unfold is_stale in Hs. rewrite Hz in Hs.
  rewrite (Get_expired _ _ _ Hz Hs). split; [done|]. cbn. apply lookup_delete_eq.
Qed.

Lemma Create_release_Get_reaps_witness :
  Get "A" processA_destroyed =
    (None, set_zones (delete "A") processA_destroyed) /\
  _zones (snd (Get "A" processA_destroyed)) !! "A" = None.
Proof.
  apply (Create_release_Get_reaps zoneA [ok; ok] process0 processA 0%nat).
  vm_compute. reflexivity.
Defined.

(** X11: as long as fewer bootstrap completions have arrived than the zone
    has workers, the constructor is still waiting, and so is [Create] of a
    free id: it has neither returned nor aborted. *)
Theorem Create_waits_for_every_worker (s : settings.ZoneSettings)
    (boot : list Result) (p : Process) :
  is_live p (settings.id s) = false ->
  settings.workers s < UINT32_MODULUS ->
  Z.of_nat (length boot) < settings.workers s ->
  NapaZone_ctor (BOOTSTRAP_SOURCE p) s boot = Blocks /\
  Create s boot p = Blocks.
Proof.
  intros Hl Hw Hlen.
  assert (NapaZone_ctor (BOOTSTRAP_SOURCE p) s boot = Blocks) as Hc.
  { unfold NapaZone_ctor. by rewrite future_get_waits. }
  split; [done|]. unfold Create, is_live in *. by rewrite Hl, Hc.
Qed.

Lemma Create_waits_for_every_worker_witness :
  NapaZone_ctor (BOOTSTRAP_SOURCE process0) zoneA [ok] = Blocks /\
  Create zoneA [ok] process0 = Blocks.
Proof.
  apply (Create_waits_for_every_worker zoneA [ok] process0).
  - reflexivity.
  - reflexivity.
  - reflexivity.
Defined.

(** X12: when every worker of the new zone has completed the bootstrap
    task, [Create] of a free id is decided by the completion that came
    last: it returns a handle when that completion's code is success, and
    the process aborts otherwise. *)
Theorem Create_decided_by_last_completion (s : settings.ZoneSettings)
    (boot : list Result) (p : Process) (r : Result) :
  is_live p (settings.id s) = false ->
  0 < settings.workers s < UINT32_MODULUS ->
  Z.of_nat (length boot) = settings.workers s ->
  last boot = Some r ->
  (code r = NAPA_RESULT_SUCCESS ->
   exists zone p', Create s boot p = Returns (Some zone, p')) /\
  (code r <> NAPA_RESULT_SUCCESS -> Create s boot p = Aborts).
Proof.
  intros Hl Hw Hlen Hlast.
  pose proof (NapaZone_ctor_last (BOOTSTRAP_SOURCE p) s boot r Hw Hlen Hlast) as Hc.
  split; intros Hr.
  - rewrite bool_decide_eq_true_2 in Hc by done.
    eexists _, _. by apply Create_not_live.
  - rewrite bool_decide_eq_false_2 in Hc by done.
    unfold Create, is_live in *. by rewrite Hl, Hc.
Qed.

Lemma Create_decided_by_last_completion_witness :
  (exists zone p', Create zoneA [failed; ok] process0 = Returns (Some zone, p')) /\
  Create zoneA [ok; failed] process0 = Aborts.
Proof.
  split.
  - apply (proj1 (Create_decided_by_last_completion zoneA [failed; ok] process0 ok
                    eq_refl (conj eq_refl eq_refl) eq_refl eq_refl)).
    reflexivity.
  - apply (proj2 (Create_decided_by_last_completion zoneA [ok; failed] process0 failed
                    eq_refl (conj eq_refl eq_refl) eq_refl eq_refl)).
    discriminate.
Defined.

(** X13: the zone [Get] returns while the handle from [Create] is held
    still has the settings [Create] was given, in [GetSettings] and in its
    scheduler, and has at least two owners: the holder and the caller of
    [Get]. *)
Theorem Get_after_Create_settings (s : settings.ZoneSettings) (boot : list Result)
    (p p1 p2 : Process) (zone : loc) :
  Create s boot p = Returns (Some zone, p1) ->
  reaches_holding zone p1 p2 ->
  exists p3 cb,
    Get (settings.id s) p2 = (Some zone, p3) /\
    zone_heap p3 !! zone = Some cb /\
    GetSettings (object cb) = s /\
    sched_settings (GetScheduler (object cb)) = s /\
    (2 <= use_count cb)%nat.
Proof.
  intros HC Hreach.
  apply Create_registered in HC.
  destruct (registered_reaches _ _ _ _ _ HC Hreach) as (Hz & Ho & Hh).
  apply negb_true_iff, expired_false in Hh as (cb & Hcb & Hc).
  eexists _, _. split; [by eapply Get_live|]. cbn.
  rewrite list_lookup_insert_eq by (by eapply lookup_lt_Some).
  split; [done|]. cbn. rewrite Hcb in Ho. cbn in Ho. injection Ho as Ho.
  rewrite Ho. split_and!; [done..|lia].
Qed.

Lemma Get_after_Create_settings_witness :
  exists p3 cb,
    Get "A" processA = (Some 0%nat, p3) /\
    zone_heap p3 !! 0%nat = Some cb /\
    GetSettings (object cb) = zoneA /\
    sched_settings (GetScheduler (object cb)) = zoneA /\
    (2 <= use_count cb)%nat.
Proof.
  apply (Get_after_Create_settings zoneA [ok; ok] process0 processA processA 0%nat).
  - vm_compute. reflexivity.
  - apply reaches_here.
Defined.

(** * Further properties of dispatch *)

Lemma resolve_task_callback (t : Task) (r : Result) (st : Store) :
  resolve t r st =
    match task_callback (contexts st) t with
    | Some cb => invoke cb r st
    | None => st
    end.
Proof.
  unfold resolve, task_callback. destruct (task_context t) as [k|]; [|done].
  by destruct (contexts st !! k).
Qed.

Lemma resolve_contexts (t : Task) (r : Result) (st : Store) :
  contexts (resolve t r st) = contexts st.
Proof.
  rewrite resolve_task_callback.
  destruct (task_callback _ t); [apply invoke_contexts | done].
Qed.

Lemma run_completions_cons (d : Task * Result) (ds : list (Task * Result)) (st : Store) :
  run_completions (d :: ds) st = run_completions ds (resolve (fst d) (snd d) st).
Proof. reflexivity. Qed.

Lemma calls_of_app (callback : nat) (l1 l2 : list (nat * Result)) :
  calls_of callback (l1 ++ l2) = calls_of callback l1 ++ calls_of callback l2.
Proof. apply filter_app. Qed.

Lemma calls_of_snoc_ne (callback callback' : nat) (r : Result) (l : list (nat * Result)) :
  callback' <> callback ->
  calls_of callback (l ++ [(callback', r)]) = calls_of callback l.
Proof.
  intros Hne. rewrite calls_of_app. unfold calls_of at 2.
  rewrite filter_cons_False by (cbn; congruence). apply app_nil_r.
Qed.

Lemma calls_of_snoc_eq (callback : nat) (r : Result) (l : list (nat * Result)) :
  calls_of callback (l ++ [(callback, r)]) = calls_of callback l ++ [(callback, r)].
Proof.
  rewrite calls_of_app. unfold calls_of at 2. by rewrite filter_cons_True.
Qed.

(** The tasks of a broadcast resolve contexts that carry its [callOnce]. *)
Lemma Broadcast_task_callback (this : NapaZone) (spec : FunctionSpec)
    (callback : CallbackHandle) (st : Store) (t : Task) :
  t ∈ scheduled_tasks this (fst (Broadcast this spec callback st)) ->
  exists i,
    (i < Z.to_nat (settings.workers (_settings this)))%nat /\
    task_context t = Some (length (contexts st) + i)%nat /\
    forall more,
      task_callback (contexts (snd (Broadcast this spec callback st)) ++ more) t =
        Some (BroadcastCallOnce (length (counters st)) callback).
Proof.
  unfold scheduled_tasks. rewrite Broadcast_scheduled, Broadcast_eq. cbn [snd contexts].
  intros (c & -> & (i & -> & Hi)%list_elem_of_fmap)%list_elem_of_fmap.
  apply elem_of_seq in Hi. exists i. cbn [call_task].
  split; [lia|]. split; [apply task_for_context|]. intros more.
  unfold task_callback. rewrite task_for_context.
  rewrite lookup_app_l by (rewrite length_app, length_replicate; lia).
  rewrite lookup_app_r by lia.
  rewrite lookup_replicate_2 by lia. done.
Qed.

Section foreign.
Variables (counter : nat) (callback : nat).

(** A foreign callback leaves the counter and the calls of [callback]
    alone. *)
Lemma invoke_foreign (cb : Callback) (r : Result) (st : Store) :
  foreign_to counter callback (Some cb) ->
  counters (invoke cb r st) !! counter = counters st !! counter /\
  calls_of callback (invoked (invoke cb r st)) = calls_of callback (invoked st).
Proof.
  destruct cb as [callback'|counter' callback']; cbn [foreign_to invoke].
  - intros Hne. split; [done|]. cbn [call invoked]. by apply calls_of_snoc_ne.
  - intros [Hc Hne]. destruct (counters st !! counter') as [c|]; [|done].
    destruct (uint32_dec c =? 0); cbn [call invoked counters].
    + rewrite list_lookup_insert_ne by done. split; [done|].
      by apply calls_of_snoc_ne.
    + by rewrite list_lookup_insert_ne.
Qed.

Variable own : Task * Result -> Prop.
Context `{!forall d, Decision (own d)}.

(** Completions of the tasks of one broadcast ([own]) interleaved with
    completions foreign to it: the broadcast's callback is called when, and
    only when, its own last completion arrives. *)
Lemma run_completions_interleaved (completions : list (Task * Result))
    (st : Store) (n : Z) :
  counters st !! counter = Some n ->
  0 <= n < UINT32_MODULUS ->
  (forall d, d ∈ completions ->
     if decide (own d)
     then task_callback (contexts st) (fst d) = Some (BroadcastCallOnce counter callback)
     else foreign_to counter callback (task_callback (contexts st) (fst d))) ->
  Z.of_nat (length (filter own completions)) = n ->
  calls_of callback (invoked (run_completions completions st)) =
    calls_of callback (invoked st) ++
    match last (filter own completions) with
    | Some d => [(callback, snd d)]
    | None => []
    end.
Proof.
  revert st n. induction completions as [|d ds IH]; intros st n Hc Hn Hcls Hlen.
  { cbn. by rewrite app_nil_r. }
  rewrite run_completions_cons, resolve_task_callback.
  pose proof (Hcls d ltac:(left)) as Hd.
  assert (forall st', contexts st' = contexts st ->
            forall d', d' ∈ ds ->
              if decide (own d')
              then task_callback (contexts st') (fst d') =
                     Some (BroadcastCallOnce counter callback)
              else foreign_to counter callback (task_callback (contexts st') (fst d')))
    as Hrest.
  { intros st' -> d' Hd'. apply Hcls. by right. }
  destruct (decide (own d)) as [Hown|Hown].
  - rewrite filter_cons_True in Hlen |- * by done. cbn [length] in Hlen.
    rewrite Hd, (invoke_callOnce _ _ _ _ n) by (done || lia).
    erewrite (IH _ (n - 1)); [| |lia|by apply Hrest|lia].
    2:{ cbn. apply list_lookup_insert_eq. by eapply lookup_lt_Some. }
    cbn [invoked]. destruct (n =? 1) eqn:E.
    + assert (filter own ds = []) as ->
        by (destruct (filter own ds); [done | cbn in Hlen; lia]).
      cbn [last]. by rewrite app_nil_r, calls_of_snoc_eq.
    + destruct (filter own ds) as [|d' ds'] eqn:Ef; [cbn in Hlen; lia|].
      by rewrite last_cons_cons.
  - rewrite filter_cons_False in Hlen |- * by done.
    destruct (task_callback (contexts st) (fst d)) as [cb|] eqn:Ecb.
    + destruct (invoke_foreign cb (snd d) st Hd) as [Hcnt Hcalls].
      erewrite (IH _ n); [by rewrite Hcalls|by rewrite Hcnt|done| |done].
      apply Hrest, invoke_contexts.
    + apply (IH _ n); [done..| |done]. by apply Hrest.
Qed.
End foreign.

Lemma Broadcast_store (this : NapaZone) (spec : FunctionSpec)
    (callback : CallbackHandle) (st : Store) :
  counters (snd (Broadcast this spec callback st)) =
    counters st ++ [settings.workers (_settings this)] /\
  contexts (snd (Broadcast this spec callback st)) =
    contexts st ++
    replicate (Z.to_nat (settings.workers (_settings this)))
      {| ctx_spec := spec;
         ctx_callback := BroadcastCallOnce (length (counters st)) callback |} /\
  invoked (snd (Broadcast this spec callback st)) = invoked st /\
  _settings (fst (Broadcast this spec callback st)) = _settings this.
Proof. by rewrite Broadcast_eq. Qed.

Lemma scheduled_tasks_Broadcast_length (this : NapaZone) (spec : FunctionSpec)
    (callback : CallbackHandle) (st : Store) :
  length (scheduled_tasks this (fst (Broadcast this spec callback st))) =
  Z.to_nat (settings.workers (_settings this)).
Proof.
  unfold scheduled_tasks. by rewrite Broadcast_scheduled, !length_fmap, length_seq.
Qed.

Lemma filter_fst_fmap {A B : Type} (P : A -> Prop) `{!forall x, Decision (P x)}
    (l : list (A * B)) :
  fst <$> filter (fun d => P (fst d)) l = filter P (fst <$> l).
Proof.
  induction l as [|d l IH]; [done|]. cbn [fmap list_fmap].
  destruct (decide (P (fst d))).
  - rewrite !filter_cons_True by done. cbn. by rewrite IH.
  - by rewrite !filter_cons_False.
Qed.

Lemma filter_all {A : Type} (P : A -> Prop) `{!forall x, Decision (P x)} (l : list A) :
  (forall x, x ∈ l -> P x) -> filter P l = l.
Proof.
  induction l as [|x l IH]; intros Hall; [done|].
  rewrite filter_cons_True by (apply Hall; left).
  rewrite IH; [done|]. intros y Hy. apply Hall. by right.
Qed.

Lemma filter_none {A : Type} (P : A -> Prop) `{!forall x, Decision (P x)} (l : list A) :
  (forall x, x ∈ l -> ~ P x) -> filter P l = [].
Proof.
  induction l as [|x l IH]; intros Hall; [done|].
  rewrite filter_cons_False by (apply Hall; left).
  apply IH. intros y Hy. apply Hall. by right.
Qed.

(** Among completions that are a permutation of two disjoint families of
    tasks, those of one family are as many as the family. *)
Lemma filter_family_length (tasks1 tasks2 : list Task)
    (completions : list (Task * Result)) :
  fst <$> completions ≡ₚ tasks1 ++ tasks2 ->
  (forall t, t ∈ tasks1 -> t ∉ tasks2) ->
  length (filter (fun d => fst d ∈ tasks1) completions) = length tasks1 /\
  length (filter (fun d => fst d ∈ tasks2) completions) = length tasks2.
Proof.
  intros Hperm Hdisj. split.
  - rewrite <- (length_fmap fst (filter (fun d => fst d ∈ tasks1) completions)).
    pose proof (filter_fst_fmap (fun t => t ∈ tasks1) completions) as Hf.
    cbn beta in Hf. rewrite Hf.
    rewrite Hperm, filter_app, length_app.
    rewrite (filter_all _ tasks1) by done.
    rewrite (filter_none _ tasks2); [cbn; lia|].
    intros t H2 H1. by apply (Hdisj t).
  - rewrite <- (length_fmap fst (filter (fun d => fst d ∈ tasks2) completions)).
    pose proof (filter_fst_fmap (fun t => t ∈ tasks2) completions) as Hf.
    cbn beta in Hf. rewrite Hf.
    rewrite Hperm, filter_app, length_app.
    rewrite (filter_none _ tasks1) by done.
    by rewrite (filter_all _ tasks2).
Qed.

(** X15: two broadcasts in flight on the same zone do not disturb each
    other.  After [Broadcast(spec1, callback1)] and then
    [Broadcast(spec2, callback2)] with a different callback, let all 2N
    tasks complete, each once, interleaved in any order.  Then each
    callback has been called exactly once, with the result of the last
    completion among the tasks of its own broadcast. *)
Theorem Broadcast_twice_independent (this : NapaZone) (spec1 spec2 : FunctionSpec)
    (callback1 callback2 : CallbackHandle) (st : Store)
    (completions : list (Task * Result)) (d1 d2 : Task * Result) :
  let b1 := Broadcast this spec1 callback1 st in
  let b2 := Broadcast (fst b1) spec2 callback2 (snd b1) in
  let tasks1 := scheduled_tasks this (fst b1) in
  let tasks2 := scheduled_tasks (fst b1) (fst b2) in
  0 < settings.workers (_settings this) < UINT32_MODULUS ->
  callback1 <> callback2 ->
  fst <$> completions ≡ₚ tasks1 ++ tasks2 ->
  last (filter (fun d => fst d ∈ tasks1) completions) = Some d1 ->
  last (filter (fun d => fst d ∈ tasks2) completions) = Some d2 ->
  calls_of callback1 (invoked (run_completions completions (snd b2))) =
    calls_of callback1 (invoked st) ++ [(callback1, snd d1)] /\
  calls_of callback2 (invoked (run_completions completions (snd b2))) =
    calls_of callback2 (invoked st) ++ [(callback2, snd d2)].
Proof.
  intros b1 b2 tasks1 tasks2 Hw Hne Hperm Hl1 Hl2.
  destruct (Broadcast_store this spec1 callback1 st) as (Hc1 & Hx1 & Hi1 & Hs1).
  destruct (Broadcast_store (fst b1) spec2 callback2 (snd b1)) as (Hc2 & Hx2 & Hi2 & Hs2).
  fold b1 in Hc1, Hx1, Hi1, Hs1, Hc2, Hx2, Hi2, Hs2. fold b2 in Hc2, Hx2, Hi2, Hs2.
  rewrite Hs1 in Hc2, Hx2.
  set (n := Z.to_nat (settings.workers (_settings this))) in *.
  assert (forall t, t ∈ tasks1 ->
            exists i, (i < n)%nat /\
              task_context t = Some (length (contexts st) + i)%nat /\
              task_callback (contexts (snd b2)) t =
                Some (BroadcastCallOnce (length (counters st)) callback1)) as Hown1.
  { intros t Ht.
    destruct (Broadcast_task_callback this spec1 callback1 st t Ht) as (i & Hi & Hk & Hcb).
    exists i. split_and!; [done..|]. rewrite Hx2. apply Hcb. }
  assert (forall t, t ∈ tasks2 ->
            exists i, (i < n)%nat /\
              task_context t = Some (length (contexts st) + n + i)%nat /\
              task_callback (contexts (snd b2)) t =
                Some (BroadcastCallOnce (S (length (counters st))) callback2)) as Hown2.
  { intros t Ht.
    destruct (Broadcast_task_callback (fst b1) spec2 callback2 (snd b1) t Ht)
      as (i & Hi & Hk & Hcb).
    fold b1 b2 in Hcb. rewrite Hs1 in Hi. fold n in Hi.
    rewrite Hx1, length_app, length_replicate in Hk. fold n in Hk.
    rewrite Hc1, length_app, Nat.add_1_r in Hcb.
    exists i. split_and!; [done..|]. specialize (Hcb []). by rewrite app_nil_r in Hcb. }
  assert (forall t, t ∈ tasks1 -> t ∉ tasks2) as Hdisj.
  { intros t (i & Hi & Hk & _)%Hown1 (j & Hj & Hk' & _)%Hown2.
    rewrite Hk in Hk'. simplify_eq. lia. }
  destruct (filter_family_length _ _ _ Hperm Hdisj) as [Hlen1 Hlen2].
  assert (forall d, d ∈ completions -> fst d ∈ tasks1 \/ fst d ∈ tasks2) as Hcls.
  { intros d Hd. apply elem_of_app. rewrite <- Hperm.
    apply list_elem_of_fmap. by exists d. }
  split.
  - rewrite <- Hi1. fold b1. rewrite <- Hi2. fold b2.
    rewrite (run_completions_interleaved (length (counters st)) callback1
               (fun d => fst d ∈ tasks1) completions (snd b2)
               (settings.workers (_settings this))).
    + by rewrite Hl1.
    + rewrite Hc2, Hc1. rewrite lookup_app_l by (rewrite length_app; cbn; lia).
      by apply list_lookup_middle.
    + lia.
    + intros d Hd. destruct (decide (fst d ∈ tasks1)) as [H1|H1].
      * by destruct (Hown1 _ H1) as (i & _ & _ & ->).
      * destruct (Hcls d Hd) as [?|H2]; [done|].
        destruct (Hown2 _ H2) as (i & _ & _ & ->). cbn. split; [lia|done].
    + rewrite Hlen1. unfold tasks1, b1.
      rewrite scheduled_tasks_Broadcast_length. lia.
  - rewrite <- Hi1. fold b1. rewrite <- Hi2. fold b2.
    rewrite (run_completions_interleaved (S (length (counters st))) callback2
               (fun d => fst d ∈ tasks2) completions (snd b2)
               (settings.workers (_settings this))).
    + by rewrite Hl2.
    + rewrite Hc2, Hc1. apply list_lookup_middle. rewrite length_app. cbn. lia.
    + lia.
    + intros d Hd. destruct (decide (fst d ∈ tasks2)) as [H2|H2].
      * by destruct (Hown2 _ H2) as (i & _ & _ & ->).
      * destruct (Hcls d Hd) as [H1|?]; [|done].
        destruct (Hown1 _ H1) as (i & _ & _ & ->). cbn. split; [lia|done].
    + rewrite Hlen2. unfold tasks2, b2.
      rewrite scheduled_tasks_Broadcast_length, Hs1. lia.
Qed.

(** Two workers, two broadcasts (callbacks 7 and 8); the completions
    arrive interleaved. *)
Lemma Broadcast_twice_independent_witness :
  let z := constructed "require('napajs');" zoneA in
  let b1 := Broadcast z broadcast_spec 7%nat empty_store in
  let b2 := Broadcast (fst b1) timed_spec 8%nat (snd b1) in
  let completions :=
    [ (CallTask 1%nat, ok);
      (TimeoutTaskDecorator 50 (CallTask 3%nat), failed);
      (TimeoutTaskDecorator 50 (CallTask 2%nat), ok);
      (CallTask 0%nat, failed) ] in
  calls_of 7%nat (invoked (run_completions completions (snd b2))) = [(7%nat, failed)] /\
  calls_of 8%nat (invoked (run_completions completions (snd b2))) = [(8%nat, ok)].
Proof.
  apply (Broadcast_twice_independent (constructed "require('napajs');" zoneA)
           broadcast_spec timed_spec 7%nat 8%nat empty_store
           [ (CallTask 1%nat, ok);
             (TimeoutTaskDecorator 50 (CallTask 3%nat), failed);
             (TimeoutTaskDecorator 50 (CallTask 2%nat), ok);
             (CallTask 0%nat, failed) ]
           (CallTask 0%nat, failed)
           (TimeoutTaskDecorator 50 (CallTask 2%nat), ok)).
  - vm_compute. split; reflexivity.
  - discriminate.
  - apply (bool_decide_unpack _). vm_compute. exact I.
  - vm_compute. reflexivity.
  - vm_compute. reflexivity.
Defined.

Lemma callOnce_all_counter (counter callback : nat) (rs : list Result)
    (st : Store) (n : Z) :
  counters st !! counter = Some n ->
  n < UINT32_MODULUS ->
  Z.of_nat (length rs) <= n ->
  counters (callOnce_all counter callback rs st) !! counter =
    Some (n - Z.of_nat (length rs)).
Proof.
  revert st n. induction rs as [|r rest IH]; intros st n Hc Hn Hlen.
  { cbn. rewrite Hc. f_equal. lia. }
  cbn [length] in Hlen.
  rewrite callOnce_all_cons, (invoke_callOnce _ _ _ _ n) by (done || lia).
  rewrite (IH _ (n - 1)); [f_equal; cbn [length]; lia| |lia|lia].
  cbn. apply list_lookup_insert_eq. by eapply lookup_lt_Some.
Qed.

(** X14: until the last of its N tasks completes, a broadcast calls no
    user callback at all: after k < N of its tasks have completed, each
    once, the log is untouched and the shared counter holds N - k. *)
Theorem Broadcast_silent_before_last (this : NapaZone) (spec : FunctionSpec)
    (callback : CallbackHandle) (st : Store) (completions : list (Task * Result)) :
  let b := Broadcast this spec callback st in
  settings.workers (_settings this) < UINT32_MODULUS ->
  NoDup (fst <$> completions) ->
  (forall d, d ∈ completions -> fst d ∈ scheduled_tasks this (fst b)) ->
  Z.of_nat (length completions) < settings.workers (_settings this) ->
  invoked (run_completions completions (snd b)) = invoked st /\
  counters (run_completions completions (snd b)) !! length (counters st) =
    Some (settings.workers (_settings this) - Z.of_nat (length completions)).
Proof.
  intros b Hw _ Hall Hlen.
  destruct (Broadcast_store this spec callback st) as (Hc & Hx & Hi & Hs).
  fold b in Hc, Hx, Hi, Hs.
  assert (counters (snd b) !! length (counters st) =
          Some (settings.workers (_settings this))) as Hcnt.
  { rewrite Hc. by apply list_lookup_middle. }
  rewrite run_completions_callOnce with (counter := length (counters st))
                                        (callback := callback).
  - rewrite <- Hi, <- (length_fmap snd completions). split.
    + eapply callOnce_all_silent; [done..|]. by rewrite length_fmap.
    + apply callOnce_all_counter; [done..|]. rewrite length_fmap. lia.
  - apply Forall_forall. intros d Hd.
    destruct (Broadcast_task_callback this spec callback st _ (Hall d Hd))
      as (i & Hi' & Hk & Hcb).
    specialize (Hcb []). rewrite app_nil_r in Hcb. fold b in Hcb.
    unfold task_callback in Hcb. rewrite Hk in Hcb.
    destruct (contexts (snd b) !! (length (contexts st) + i)%nat) as [ctx|] eqn:Hctx;
      [|done].
    exists (length (contexts st) + i)%nat, ctx. cbn in Hcb. by simplify_eq.
Qed.

Lemma Broadcast_silent_before_last_witness :
  let b := Broadcast (constructed "require('napajs');" zoneA)
             broadcast_spec 7%nat empty_store in
  invoked (run_completions [(CallTask 1%nat, failed)] (snd b)) = [] /\
  counters (run_completions [(CallTask 1%nat, failed)] (snd b)) !! 0%nat = Some 1.
Proof.
  apply (Broadcast_silent_before_last (constructed "require('napajs');" zoneA)
           broadcast_spec 7%nat empty_store [(CallTask 1%nat, failed)]).
  - reflexivity.
  - apply NoDup_singleton.
  - intros d Hd. apply list_elem_of_singleton in Hd. rewrite Hd.
    vm_compute. apply list_elem_of_further, list_elem_of_here.
  - reflexivity.
Defined.

(** X16: when the task [Execute] scheduled completes with a result, the
    user callback is called with that result, once; no counter is
    touched. *)
Theorem Execute_completion_calls_back (this : NapaZone) (spec : FunctionSpec)
    (callback : CallbackHandle) (st : Store) (r : Result) :
  let e := Execute this spec callback st in
  exists task,
    scheduled_tasks this (fst e) = [task] /\
    invoked (resolve task r (snd e)) = invoked st ++ [(callback, r)] /\
    counters (resolve task r (snd e)) = counters st.
Proof.
  intros e. exists (task_for spec (length (contexts st))). split.
  - unfold scheduled_tasks.
    rewrite (scheduled_since_app this (fst e)
               [Schedule (task_for spec (length (contexts st)))]); [done|].
    subst e. by rewrite Execute_eq.
  - subst e. rewrite Execute_eq. cbn [snd]. unfold resolve.
    rewrite task_for_context. cbn [contexts].
    by rewrite list_lookup_middle.
Qed.

(** * Further properties of transport *)

Module transport_bounds.
Import transport.

Lemma uint32_inc_range (i : Z) : 0 <= uint32_inc i < UINT32_MODULUS.
Proof. unfold uint32_inc. apply Z.mod_pos_bound. unfold UINT32_MODULUS. lia. Qed.

(** The loop for any number of entries: the index of the k-th transfer is
    [i0 + k] reduced modulo 2^32. *)
Lemma ReadValue_loop_wraps (cs : list (Contents * nat)) (i0 : Z) (d : ValueDeserializer) :
  0 <= i0 < UINT32_MODULUS ->
  snd (foldl ReadValue_iteration (i0, d) cs) =
    {| header := header d;
       value := value d;
       transferred :=
         transferred d ++
         imap (fun k c => ((i0 + Z.of_nat k) mod UINT32_MODULUS, make_buffer c)) cs;
       received :=
         received d ++
         (uncurry CallTransferSharedArrayBuffer <$>
            imap (fun k c => ((i0 + Z.of_nat k) mod UINT32_MODULUS, make_buffer c)) cs) |}.
Proof.
  revert i0 d. induction cs as [|c cs IH]; intros i0 d Hi.
  { cbn. rewrite !app_nil_r. by destruct d. }
  cbn [foldl ReadValue_iteration]. rewrite IH by apply uint32_inc_range.
  cbn [VD_TransferSharedArrayBuffer header value transferred received
       imap fmap list_fmap uncurry].
  rewrite Z.add_0_r, (Z.mod_small i0) by done.
  assert (imap (fun k c0 => ((uint32_inc i0 + Z.of_nat k) mod UINT32_MODULUS,
                             make_buffer c0)) cs =
          imap ((fun k c0 => ((i0 + Z.of_nat k) mod UINT32_MODULUS, make_buffer c0)) ∘ S)
            cs) as ->.
  { apply imap_ext. intros k x _. cbn [compose]. f_equal. unfold uint32_inc.
    rewrite Zplus_mod_idemp_l. f_equal. lia. }
  by rewrite <- !app_assoc.
Qed.

(** X17: whatever the number of stored entries, when the header reads
    [ReadValue] makes one transfer per entry, in the stored order, the k-th
    at index k reduced modulo 2^32 (the [uint32_t] index wraps silently),
    then reads the value. *)
Theorem ReadValue_indices_wrap (this : Deserializer) :
  let d := _deserializer this in
  let cs := shared_array_buffer_contents (_data this) in
  let buffers :=
    imap (fun k c => (Z.of_nat k mod UINT32_MODULUS, make_buffer c)) cs in
  is_Some (header d) ->
  ReadValue this =
    (value d (transferred d ++ buffers),
     {| _deserializer :=
          {| header := header d; value := value d;
             transferred := transferred d ++ buffers;
             received :=
               received d ++ [CallReadHeader] ++
               (uncurry CallTransferSharedArrayBuffer <$> buffers) ++
               [CallReadValue] |};
        _data := _data this |}) /\
  length buffers = length cs.
Proof.
  intros d cs buffers [b Hb]. split; [|apply length_imap].
  unfold ReadValue. cbn [VD_ReadHeader]. fold d cs. rewrite Hb.
  pose proof (ReadValue_loop_wraps cs 0
                {| header := Some b; value := value d;
                   transferred := transferred d;
                   received := received d ++ [CallReadHeader] |}
                ltac:(done)) as Hloop.
  destruct (foldl ReadValue_iteration _ cs) as [index d'].
  cbn [snd] in Hloop. subst d'.
  cbn [VD_ReadValue header value transferred received].
  by rewrite <- !app_assoc.
Qed.

Lemma ReadValue_indices_wrap_witness :
  fst (ReadValue sample_deserializer) = Some "[object SharedArrayBuffer]" /\
  fst <$> transferred (_deserializer (snd (ReadValue sample_deserializer))) = [0; 1].
Proof.
  destruct (ReadValue_indices_wrap sample_deserializer) as [H _].
  - exists true. reflexivity.
  - rewrite H. split; reflexivity.
Defined.

End transport_bounds.
